(** * B3 CheckSpecial: lowering of checked arithmetic to a hidden branch
      plus a deferred recovery stub.

    A shallow embedding of [B3CheckSpecial.cpp] (JavaScriptCore, B3 JIT):
    the operand bookkeeping of [CheckSpecial], its code generator, the
    late path it queues, and a small register machine on which the
    emitted undo sequences are run. *)

From Stdlib Require Import ZArith List Bool Lia.
From Stdlib Require String.
Import ListNotations.

Local Open Scope Z_scope.

(** ** Fallible code

    Assertions ([ASSERT], taken as checked, as in a debug build),
    [RELEASE_ASSERT_NOT_REACHED], [UNREACHABLE_FOR_PLATFORM] and out-of-range
    accesses to a [WTF::Vector] abort the compilation; an aborted
    computation is [None]. *)

Definition bind {A B : Type} (c : option A) (k : A -> option B) : option B :=
  match c with
  | Some a => k a
  | None => None
  end.

Notation "x <- c ;; k" := (bind c (fun x => k))
  (at level 61, c at next level, right associativity).

Definition ASSERT (b : bool) : option unit :=
  if b then Some tt else None.

(** [Vector::operator[]]: a checked access. *)
Definition at_ {A : Type} (v : list A) (i : nat) : option A := nth_error v i.

(** [Vector::appendUsingFunctor(n, f)] on an empty vector: [f 0], ..., [f (n-1)]. *)
Fixpoint appendUsingFunctor {A : Type} (n : nat) (f : nat -> option A) : option (list A) :=
  match n with
  | O => Some []
  | S m =>
      front <- appendUsingFunctor m f ;;
      last <- f m ;;
      Some (front ++ [last])
  end.

(** ** Machine integers *)

Inductive Width : Type := Width32 | Width64.

Definition bits (w : Width) : Z :=
  match w with
  | Width32 => 32
  | Width64 => 64
  end.

Definition modulus (w : Width) : Z := 2 ^ bits w.

(** A result truncated to the operation's width. *)
Definition wrap (w : Width) (x : Z) : Z := x mod modulus w.

(** The most negative value of the width, as a bit pattern. *)
Definition minSigned (w : Width) : Z := 2 ^ (bits w - 1).

(** ** Air operands and instructions *)

Definition GPRReg : Type := nat.

Inductive ResultCondition : Type :=
| Overflow | Signed | PositiveOrZero | Zero | NonZero.

(** The operand kinds of [Air::Arg] that a lowered check can carry after
    register allocation. *)
Inductive Arg : Type :=
| Tmp (r : GPRReg)
| Imm (value : Z)
| Stack (offset : Z)
| ResCond (c : ResultCondition)
| Special.

Definition ResultCondition_eqb (c d : ResultCondition) : bool :=
  match c, d with
  | Overflow, Overflow | Signed, Signed | PositiveOrZero, PositiveOrZero
  | Zero, Zero | NonZero, NonZero => true
  | _, _ => false
  end.

(** [Arg::operator==]. *)
Definition Arg_eqb (a b : Arg) : bool :=
  match a, b with
  | Tmp r, Tmp s => Nat.eqb r s
  | Imm x, Imm y => Z.eqb x y
  | Stack x, Stack y => Z.eqb x y
  | ResCond c, ResCond d => ResultCondition_eqb c d
  | Special, Special => true
  | _, _ => false
  end.

Definition isGPR (a : Arg) : bool :=
  match a with
  | Tmp _ => true
  | _ => false
  end.

(** The Air opcodes this file mentions, and a few of their neighbours. *)
Inductive Opcode : Type :=
| BranchAdd32 | BranchAdd64
| BranchSub32 | BranchSub64
| BranchNeg32 | BranchNeg64
| BranchMul32 | BranchMul64
| BranchTest32 | BranchTest64
| Ret64 | Oops
| Add32 | Add64
| Sub32 | Sub64
| Neg32 | Neg64
| Move | Patch.

Definition Opcode_eqb (a b : Opcode) : bool :=
  match a, b with
  | BranchAdd32, BranchAdd32 | BranchAdd64, BranchAdd64
  | BranchSub32, BranchSub32 | BranchSub64, BranchSub64
  | BranchNeg32, BranchNeg32 | BranchNeg64, BranchNeg64
  | BranchMul32, BranchMul32 | BranchMul64, BranchMul64
  | BranchTest32, BranchTest32 | BranchTest64, BranchTest64
  | Ret64, Ret64 | Oops, Oops
  | Add32, Add32 | Add64, Add64
  | Sub32, Sub32 | Sub64, Sub64
  | Neg32, Neg32 | Neg64, Neg64
  | Move, Move | Patch, Patch => true
  | _, _ => false
  end.

(** [Air::Kind]: an opcode and its effects bit. *)
Record Kind : Type := mkKind { opcode : Opcode; effects : bool }.

(** ** B3 values *)

Inductive B3Opcode : Type :=
| CheckAdd | CheckSub | CheckMul | Check
| Patchpoint | B3Add | B3Sub | B3Nop.

(** The originating B3 value of an instruction, as far as this file looks at
    it: its kind, how many children it has, and which recovery generator
    ([m_generator]) it carries. *)
Record Value : Type := mkValue {
  kind : B3Opcode;
  numChildren : nat;
  m_generator : nat
}.

Record Inst : Type := mkInst {
  inst_kind : Kind;
  origin : option Value;
  args : list Arg
}.

Inductive RoleMode : Type := SameAsRep | ForceLateUseUnlessRecoverable | ForceLateUse.

Record CheckSpecial : Type := mkCheckSpecial {
  m_checkKind : Kind;
  m_stackmapRole : RoleMode;
  m_numCheckArgs : nat
}.

(** [CheckSpecial::Key]. *)
Record Key : Type := mkKey {
  key_kind : Kind;
  key_numArgs : nat;
  key_stackmapRole : RoleMode
}.

(** [CheckSpecial::Key::Key(const Inst&)]. *)
Definition Key_of_Inst (inst : Inst) : Key :=
  {| key_kind := inst_kind inst;
     key_numArgs := length (args inst);
     key_stackmapRole := SameAsRep |}.

(** ** The macro assembler and the machine it targets *)

(** Modelled from the spec: the macro-assembler calls that
    [CheckSpecial::generate] makes, the Air instructions it emits through
    [Inst::generate], and what they do to the registers.  The assembler is
    not part of the sources; section 4.6 of the design names the steps
    (capture carry, shift into the sign-bit position, shift right by one, OR,
    subtract, add back, negate again).  [rshift32]/[rshift64] are the
    assembler's arithmetic shifts, [urshift32]/[urshift64] its logical ones. *)
Inductive MacroOp : Type :=
| pushToSave (r : GPRReg)
| popToRestore (r : GPRReg)
| setCarry (r : GPRReg)
| lshift32 (imm : Z) (r : GPRReg)
| lshift64 (imm : Z) (r : GPRReg)
| urshift32 (imm : Z) (r : GPRReg)
| urshift64 (imm : Z) (r : GPRReg)
| rshift32 (imm : Z) (r : GPRReg)
| rshift64 (imm : Z) (r : GPRReg)
| or32 (src dst : GPRReg)
| or64 (src dst : GPRReg)
| air (i : Inst).

(** Modelled from the spec: the state the emitted code acts on.  The
    general-purpose registers (64 bits each), the frame slots, the carry
    flag, and the values pushed by [pushToSave]. *)
Record Machine : Type := mkMachine {
  regs : GPRReg -> Z;
  frame : Z -> Z;
  carry : bool;
  saved : list Z
}.

Definition setReg (m : Machine) (r : GPRReg) (v : Z) : Machine :=
  {| regs := fun r' => if Nat.eqb r' r then v else regs m r';
     frame := frame m;
     carry := carry m;
     saved := saved m |}.

Definition setCarryFlag (m : Machine) (c : bool) : Machine :=
  {| regs := regs m; frame := frame m; carry := c; saved := saved m |}.

(** Modelled from the spec: the value of a width-[w] register read as a
    signed number. *)
Definition signed (w : Width) (x : Z) : Z :=
  if x <? minSigned w then x else x - modulus w.

(** Modelled from the spec: shift counts are taken modulo the width. *)
Definition shiftAmount (w : Width) (imm : Z) : Z := imm mod bits w.

(** Modelled from the spec: shift left, keeping the low [w] bits. *)
Definition lshift (w : Width) (imm : Z) (r : GPRReg) (m : Machine) : Machine :=
  setReg m r (wrap w (Z.shiftl (wrap w (regs m r)) (shiftAmount w imm))).

(** Modelled from the spec: logical shift right of the low [w] bits; the
    vacated top bits are zero. *)
Definition urshift (w : Width) (imm : Z) (r : GPRReg) (m : Machine) : Machine :=
  setReg m r (Z.shiftr (wrap w (regs m r)) (shiftAmount w imm)).

(** Modelled from the spec: arithmetic shift right of the low [w] bits;
    the vacated top bits copy the sign bit. *)
Definition rshift (w : Width) (imm : Z) (r : GPRReg) (m : Machine) : Machine :=
  setReg m r (wrap w (Z.shiftr (signed w (wrap w (regs m r))) (shiftAmount w imm))).

(** Modelled from the spec: bitwise OR of the low [w] bits into [dst]. *)
Definition or_ (w : Width) (src dst : GPRReg) (m : Machine) : Machine :=
  setReg m dst (wrap w (Z.lor (regs m src) (regs m dst))).

(** Modelled from the spec: reading a source operand at a width. *)
Definition readArg (w : Width) (m : Machine) (a : Arg) : option Z :=
  match a with
  | Tmp r => Some (wrap w (regs m r))
  | Imm v => Some (wrap w v)
  | Stack off => Some (wrap w (frame m off))
  | ResCond _ | Special => None
  end.

(** Modelled from the spec: writing a register destination; the result is
    zero-extended into the full register.  Memory destinations are left
    out of the machine. *)
Definition writeArg (m : Machine) (a : Arg) (v : Z) : option Machine :=
  match a with
  | Tmp r => Some (setReg m r v)
  | _ => None
  end.

(** Modelled from the spec: [dst := a + b], carry flag := carry out of
    the width. *)
Definition addFlags (w : Width) (a b dst : Arg) (m : Machine) : option Machine :=
  x <- readArg w m a ;;
  y <- readArg w m b ;;
  m' <- writeArg m dst (wrap w (x + y)) ;;
  Some (setCarryFlag m' (modulus w <=? x + y)).

(** Modelled from the spec: [dst := dst - src], carry flag := borrow. *)
Definition subFlags (w : Width) (src dst : Arg) (m : Machine) : option Machine :=
  x <- readArg w m dst ;;
  y <- readArg w m src ;;
  m' <- writeArg m dst (wrap w (x - y)) ;;
  Some (setCarryFlag m' (x <? y)).

(** Modelled from the spec: [dst := - dst], carry flag := the operand was
    not zero. *)
Definition negFlags (w : Width) (dst : Arg) (m : Machine) : option Machine :=
  x <- readArg w m dst ;;
  m' <- writeArg m dst (wrap w (- x)) ;;
  Some (setCarryFlag m' (negb (x =? 0))).

(** Modelled from the spec: what an Air instruction does to the registers
    when its code runs (checked add, subtract and negate, and the plain
    add, subtract and negate that undo them).  A branch performs its
    arithmetic whether or not the branch is then taken. *)
Definition execAir (i : Inst) (m : Machine) : option Machine :=
  match opcode (inst_kind i), args i with
  | BranchAdd32, [ResCond _; src; dst] => addFlags Width32 src dst dst m
  | BranchAdd32, [ResCond _; a; b; dst] => addFlags Width32 a b dst m
  | BranchAdd64, [ResCond _; src; dst] => addFlags Width64 src dst dst m
  | BranchAdd64, [ResCond _; a; b; dst] => addFlags Width64 a b dst m
  | BranchSub32, [ResCond _; src; dst] => subFlags Width32 src dst m
  | BranchSub64, [ResCond _; src; dst] => subFlags Width64 src dst m
  | BranchNeg32, [ResCond _; dst] => negFlags Width32 dst m
  | BranchNeg64, [ResCond _; dst] => negFlags Width64 dst m
  | Add32, [src; dst] => addFlags Width32 src dst dst m
  | Add64, [src; dst] => addFlags Width64 src dst dst m
  | Sub32, [src; dst] => subFlags Width32 src dst m
  | Sub64, [src; dst] => subFlags Width64 src dst m
  | Neg32, [dst] => negFlags Width32 dst m
  | Neg64, [dst] => negFlags Width64 dst m
  | _, _ => None
  end.

(** Modelled from the spec: what each macro-assembler call does when its
    code runs.  32-bit operations write a zero-extended result. *)
Definition exec (op : MacroOp) (m : Machine) : option Machine :=
  match op with
  | pushToSave r =>
      Some {| regs := regs m; frame := frame m; carry := carry m;
              saved := regs m r :: saved m |}
  | popToRestore r =>
      match saved m with
      | v :: rest =>
          Some {| regs := fun r' => if Nat.eqb r' r then v else regs m r';
                  frame := frame m; carry := carry m; saved := rest |}
      | [] => None
      end
  | setCarry r => Some (setReg m r (Z.b2z (carry m)))
  | lshift32 imm r => Some (lshift Width32 imm r m)
  | lshift64 imm r => Some (lshift Width64 imm r m)
  | urshift32 imm r => Some (urshift Width32 imm r m)
  | urshift64 imm r => Some (urshift Width64 imm r m)
  | rshift32 imm r => Some (rshift Width32 imm r m)
  | rshift64 imm r => Some (rshift Width64 imm r m)
  | or32 src dst => Some (or_ Width32 src dst m)
  | or64 src dst => Some (or_ Width64 src dst m)
  | air i => execAir i m
  end.

Fixpoint run (ops : list MacroOp) (m : Machine) : option Machine :=
  match ops with
  | [] => Some m
  | op :: rest => m' <- exec op m ;; run rest m'
  end.

(** ** Code generation state *)

(** [CCallHelpers::Jump]: set once it names the branch it was returned
    for; [Jump()] is unset. *)
Record Jump : Type := mkJump { m_label : option nat }.

Definition isSet (j : Jump) : bool :=
  match m_label j with
  | Some _ => true
  | None => false
  end.

(** Modelled from the spec: a value representation says where a live value
    resides (register, stack or constant); [B3ValueRep.h] is not part of
    the sources. *)
Inductive ValueRep : Type :=
| RepRegister (r : GPRReg)
| RepStack (offset : Z)
| RepConstant (value : Z).

(** What the assembler buffer holds, in emission order: machine code, the
    place a jump is linked to, and the code of a recovery generator. *)
Inductive Emitted : Type :=
| code (op : MacroOp)
| link (j : Jump)
| generator (g : nat) (value : Value) (reps : list ValueRep).

Definition Jit : Type := list Emitted.

(** The closure appended to [context.latePaths]: what the lambda in
    [CheckSpecial::generate] captures by value. *)
Record LatePath : Type := mkLatePath {
  lp_fail : Jump;
  lp_this : CheckSpecial;
  lp_args : list Arg;
  lp_value : Value;
  lp_reps : list ValueRep
}.

Record GenerationContext : Type := mkContext { latePaths : list LatePath }.

(** Modelled from the spec: operand roles and register banks (section 3 of
    the design); [AirArg.h] is not part of the sources. *)
Inductive Role : Type := Use | Def | UseDef | Scratch | LateColdUse.

Inductive Bank : Type := GP | FP.

Definition isAnyDef (r : Role) : bool :=
  match r with
  | Def | UseDef | Scratch => true
  | Use | LateColdUse => false
  end.

Definition Role_eqb (a b : Role) : bool :=
  match a, b with
  | Use, Use | Def, Def | UseDef, UseDef | Scratch, Scratch
  | LateColdUse, LateColdUse => true
  | _, _ => false
  end.

(** One invocation of an [Inst::EachArgCallback]: which slot of the
    instruction it is handed, and with what classification. *)
Record ArgCall : Type := mkArgCall {
  call_index : nat;
  call_role : Role;
  call_bank : Bank;
  call_width : Width
}.

(** The collaborators of [CheckSpecial] that live in other files: the
    target, Air's per-opcode tables and the shared stackmap policy of
    [StackmapSpecial]. *)
Record Collaborators : Type := mkCollaborators {
  is64Bit : bool;
  selectScratchGPR : GPRReg -> GPRReg;
  isValidForm : Inst -> bool;
  Inst_forEachArg : Inst -> list ArgCall;
  Inst_admitsStack : Inst -> nat -> bool;
  Inst_shouldTryAliasingDef : Inst -> option nat;
  forEachArgImpl :
    nat -> nat -> Inst -> RoleMode -> option nat -> option Width -> list ArgCall;
  isValidImpl : nat -> nat -> Inst -> bool;
  admitsStackImpl : nat -> nat -> Inst -> nat -> bool;
  repsImpl : GenerationContext -> nat -> nat -> Inst -> list ValueRep
}.

(** Modelled from the spec: which Air opcodes end a basic block, and which
    of them hand back a jump when emitted.  Air's opcode table is not part
    of the sources; the conditional branches are terminal and yield the
    failure edge, [Ret64] and [Oops] are terminal and yield none. *)
Definition isTerminal (op : Opcode) : bool :=
  match op with
  | BranchAdd32 | BranchAdd64 | BranchSub32 | BranchSub64
  | BranchNeg32 | BranchNeg64 | BranchMul32 | BranchMul64
  | BranchTest32 | BranchTest64 | Ret64 | Oops => true
  | _ => false
  end.

Definition isDefinitelyTerminal (op : Opcode) : bool := isTerminal op.

Definition producesJump (op : Opcode) : bool :=
  match op with
  | BranchAdd32 | BranchAdd64 | BranchSub32 | BranchSub64
  | BranchNeg32 | BranchNeg64 | BranchMul32 | BranchMul64
  | BranchTest32 | BranchTest64 => true
  | _ => false
  end.

(** Modelled from the spec: [Inst::generate] of an ordinary Air
    instruction appends the instruction's code to the buffer; a branch
    returns a set jump naming it, anything else returns [Jump()]. *)
Definition Inst_generate (i : Inst) (jit : Jit) : Jump * Jit :=
  (if producesJump (opcode (inst_kind i))
   then {| m_label := Some (length jit) |}
   else {| m_label := None |},
   jit ++ [code (air i)]).

(** Modelled from the spec: [Value::as<StackmapValue>()]; the checks and
    patchpoints are the stackmap values. *)
Definition as_StackmapValue (v : Value) : option Value :=
  match kind v with
  | CheckAdd | CheckSub | CheckMul | Check | Patchpoint => Some v
  | _ => None
  end.

(** ** CheckSpecial *)

Section CheckSpecial.

Variable E : Collaborators.

(** [numB3Args(Kind)]: the default case is [RELEASE_ASSERT_NOT_REACHED]. *)
Definition numB3Args_Kind (k : B3Opcode) : option nat :=
  match k with
  | CheckAdd | CheckSub | CheckMul => Some 2%nat
  | Check => Some 1%nat
  | _ => None
  end.

Definition numB3Args_Value (value : Value) : option nat :=
  numB3Args_Kind (kind value).

Definition numB3Args (inst : Inst) : option nat :=
  value <- origin inst ;;
  numB3Args_Value value.

(** The constructor, with its assertion on the kind. *)
Definition CheckSpecial_new (k : Kind) (numArgs : nat) (stackmapRole : RoleMode)
  : option CheckSpecial :=
  _ <- ASSERT (isDefinitelyTerminal (opcode k)) ;;
  Some {| m_checkKind := k; m_stackmapRole := stackmapRole; m_numCheckArgs := numArgs |}.

Definition CheckSpecial_of_Key (key : Key) : option CheckSpecial :=
  CheckSpecial_new (key_kind key) (key_numArgs key) (key_stackmapRole key).

Definition hiddenBranch (this : CheckSpecial) (inst : Inst) : option Inst :=
  hiddenArgs <- appendUsingFunctor (m_numCheckArgs this)
                  (fun i => at_ (args inst) (i + 1)) ;;
  let hidden := {| inst_kind := m_checkKind this;
                   origin := origin inst;
                   args := hiddenArgs |} in
  _ <- ASSERT (isTerminal (opcode (inst_kind hidden))) ;;
  Some hidden.

(** The width of the one defined operand of the hidden branch; a second
    one trips the assertion. *)
Fixpoint defArgWidth (calls : list ArgCall) (optionalDefArgWidth : option Width)
  : option (option Width) :=
  match calls with
  | [] => Some optionalDefArgWidth
  | c :: rest =>
      if isAnyDef (call_role c) && negb (Role_eqb (call_role c) Scratch) then
        match optionalDefArgWidth with
        | Some _ => None
        | None => defArgWidth rest (Some (call_width c))
        end
      else defArgWidth rest optionalDefArgWidth
  end.

(** The callback is handed [inst.args[1 + index]] for the hidden branch's
    slot [index]. *)
Fixpoint shiftCalls (inst : Inst) (calls : list ArgCall) : option (list ArgCall) :=
  match calls with
  | [] => Some []
  | c :: rest =>
      _ <- at_ (args inst) (1 + call_index c) ;;
      rest' <- shiftCalls inst rest ;;
      Some ({| call_index := 1 + call_index c;
               call_role := call_role c;
               call_bank := call_bank c;
               call_width := call_width c |} :: rest')
  end.

Definition firstRecoverableIndex (this : CheckSpecial) : option nat :=
  if Opcode_eqb (opcode (m_checkKind this)) BranchAdd32
     || Opcode_eqb (opcode (m_checkKind this)) BranchAdd64
  then Some 1%nat
  else None.

(** [forEachArg]: the callback invocations it makes, in order. *)
Definition forEachArg (this : CheckSpecial) (inst : Inst) : option (list ArgCall) :=
  hidden <- hiddenBranch this inst ;;
  optionalDefArgWidth <- defArgWidth (Inst_forEachArg E hidden) None ;;
  hiddenCalls <- shiftCalls inst (Inst_forEachArg E hidden) ;;
  numIgnoredB3Args <- numB3Args inst ;;
  Some (hiddenCalls ++
        forEachArgImpl E numIgnoredB3Args (m_numCheckArgs this + 1) inst
          (m_stackmapRole this) (firstRecoverableIndex this) optionalDefArgWidth).

(** The width of [size_t] on the target. *)
Definition sizeBits : Z := if is64Bit E then 64 else 32.

(** [isValid]: [&&] evaluates left to right and stops at the first false
    operand.  The last comparison is between unsigned quantities:
    [size_t] on the left, [unsigned] on the right. *)
Definition isValid (this : CheckSpecial) (inst : Inst) : option bool :=
  hidden <- hiddenBranch this inst ;;
  if isValidForm E hidden then
    numIgnoredB3Args <- numB3Args inst ;;
    if isValidImpl E numIgnoredB3Args (m_numCheckArgs this + 1) inst then
      value <- origin inst ;;
      n <- numB3Args inst ;;
      Some (((Z.of_nat (length (args inst)) - Z.of_nat (m_numCheckArgs this) - 1)
               mod 2 ^ sizeBits)
            =? ((Z.of_nat (numChildren value) - Z.of_nat n) mod 2 ^ 32))
    else Some false
  else Some false.

(** [a + b] on [unsigned]: the sum wraps at [2^32]. *)
Definition unsignedSum (a b : nat) : nat :=
  Z.to_nat ((Z.of_nat a + Z.of_nat b) mod 2 ^ 32).

(** [admitsStack]: [1 + m_numCheckArgs] and [m_numCheckArgs + 1] are sums
    of [unsigned] values. *)
Definition admitsStack (this : CheckSpecial) (inst : Inst) (argIndex : nat) : option bool :=
  if (1 <=? argIndex)%nat && (argIndex <? unsignedSum 1 (m_numCheckArgs this))%nat then
    hidden <- hiddenBranch this inst ;;
    Some (Inst_admitsStack E hidden (argIndex - 1))
  else
    numIgnoredB3Args <- numB3Args inst ;;
    Some (admitsStackImpl E numIgnoredB3Args (unsignedSum (m_numCheckArgs this) 1)
            inst argIndex).

Definition admitsExtendedOffsetAddr (this : CheckSpecial) (inst : Inst) (argIndex : nat)
  : option bool :=
  if (1 <=? argIndex)%nat && (argIndex <? unsignedSum 1 (m_numCheckArgs this))%nat
  then Some false
  else admitsStack this inst argIndex.

Definition shouldTryAliasingDef (this : CheckSpecial) (inst : Inst) : option (option nat) :=
  hidden <- hiddenBranch this inst ;;
  match Inst_shouldTryAliasingDef E hidden with
  | Some branchDef => Some (Some (branchDef + 1)%nat)
  | None => Some None
  end.

(** [Arg::gpr()]. *)
Definition gpr (a : Arg) : option GPRReg :=
  match a with
  | Tmp r => Some r
  | _ => None
  end.

(** [Inst(opcode, nullptr, args...)]. *)
Definition Inst_of (op : Opcode) (operands : list Arg) : Inst :=
  {| inst_kind := {| opcode := op; effects := false |};
     origin := None;
     args := operands |}.

(** The condition shared by the two add cases:
    [(m_numCheckArgs == 4 && args[1] == args[2] && args[2] == args[3])
     || (m_numCheckArgs == 3 && args[1] == args[2])]. *)
Definition allOperandsAliased (numCheckArgs : nat) (args : list Arg) : option bool :=
  if Nat.eqb numCheckArgs 4 then
    a1 <- at_ args 1 ;;
    a2 <- at_ args 2 ;;
    if Arg_eqb a1 a2 then
      a3 <- at_ args 3 ;;
      Some (Arg_eqb a2 a3)
    else Some false
  else if Nat.eqb numCheckArgs 3 then
    a1 <- at_ args 1 ;;
    a2 <- at_ args 2 ;;
    Some (Arg_eqb a1 a2)
  else Some false.

(** "If necessary, undo the operation": the switch of the late path, as
    the code it emits. *)
Definition undoOperation (this : CheckSpecial) (args : list Arg) : option (list MacroOp) :=
  match opcode (m_checkKind this) with
  | BranchAdd32 =>
      if is64Bit E then
        aliased <- allOperandsAliased (m_numCheckArgs this) args ;;
        if aliased then
          a1 <- at_ args 1 ;;
          _ <- ASSERT (isGPR a1) ;;
          valueGPR <- gpr a1 ;;
          let scratchGPR := selectScratchGPR E valueGPR in
          Some [pushToSave scratchGPR;
                setCarry scratchGPR;
                lshift32 31 scratchGPR;
                urshift32 1 valueGPR;
                or32 scratchGPR valueGPR;
                popToRestore scratchGPR]
        else if Nat.eqb (m_numCheckArgs this) 4 then
          a1 <- at_ args 1 ;;
          a3 <- at_ args 3 ;;
          if Arg_eqb a1 a3 then
            a2 <- at_ args 2 ;;
            Some [air (Inst_of Sub32 [a2; a3])]
          else
            a2 <- at_ args 2 ;;
            if Arg_eqb a2 a3 then Some [air (Inst_of Sub32 [a1; a3])]
            else Some []
        else if Nat.eqb (m_numCheckArgs this) 3 then
          a1 <- at_ args 1 ;;
          a2 <- at_ args 2 ;;
          Some [air (Inst_of Sub32 [a1; a2])]
        else Some []
      else None
  | BranchAdd64 =>
      if is64Bit E then
        aliased <- allOperandsAliased (m_numCheckArgs this) args ;;
        if aliased then
          a1 <- at_ args 1 ;;
          _ <- ASSERT (isGPR a1) ;;
          valueGPR <- gpr a1 ;;
          let scratchGPR := selectScratchGPR E valueGPR in
          Some [pushToSave scratchGPR;
                setCarry scratchGPR;
                lshift64 63 scratchGPR;
                urshift64 1 valueGPR;
                or64 scratchGPR valueGPR;
                popToRestore scratchGPR]
        else if Nat.eqb (m_numCheckArgs this) 4 then
          a1 <- at_ args 1 ;;
          a3 <- at_ args 3 ;;
          if Arg_eqb a1 a3 then
            a2 <- at_ args 2 ;;
            Some [air (Inst_of Sub64 [a2; a3])]
          else
            a2 <- at_ args 2 ;;
            if Arg_eqb a2 a3 then Some [air (Inst_of Sub64 [a1; a3])]
            else Some []
        else if Nat.eqb (m_numCheckArgs this) 3 then
          a1 <- at_ args 1 ;;
          a2 <- at_ args 2 ;;
          Some [air (Inst_of Sub64 [a1; a2])]
        else Some []
      else None
  | BranchSub32 =>
      a1 <- at_ args 1 ;;
      a2 <- at_ args 2 ;;
      Some [air (Inst_of Add32 [a1; a2])]
  | BranchSub64 =>
      if is64Bit E then
        a1 <- at_ args 1 ;;
        a2 <- at_ args 2 ;;
        Some [air (Inst_of Add64 [a1; a2])]
      else None
  | BranchNeg32 =>
      a1 <- at_ args 1 ;;
      Some [air (Inst_of Neg32 [a1])]
  | BranchNeg64 =>
      if is64Bit E then
        a1 <- at_ args 1 ;;
        Some [air (Inst_of Neg64 [a1])]
      else None
  | _ => Some []
  end.

(** The body of the lambda queued by [generate]: link the failure edge
    here, undo, run the recovery generator. *)
Definition latePathFunction (task : LatePath) (jit : Jit) : option Jit :=
  let jit1 := jit ++ [link (lp_fail task)] in
  undo <- undoOperation (lp_this task) (lp_args task) ;;
  let jit2 := jit1 ++ map code undo in
  Some (jit2 ++ [generator (m_generator (lp_value task)) (lp_value task) (lp_reps task)]).

Definition generate (this : CheckSpecial) (inst : Inst) (jit : Jit)
  (context : GenerationContext) : option (Jump * Jit * GenerationContext) :=
  hidden <- hiddenBranch this inst ;;
  let (fail, jit1) := Inst_generate hidden jit in
  _ <- ASSERT (isSet fail) ;;
  originValue <- origin inst ;;
  value <- as_StackmapValue originValue ;;
  numIgnoredB3Args <- numB3Args inst ;;
  let reps := repsImpl E context numIgnoredB3Args (m_numCheckArgs this + 1) inst in
  savedArgs <- appendUsingFunctor (m_numCheckArgs this)
                 (fun i => at_ (args inst) (1 + i)) ;;
  let task := {| lp_fail := fail;
                 lp_this := this;
                 lp_args := savedArgs;
                 lp_value := value;
                 lp_reps := reps |} in
  Some ({| m_label := None |}, jit1,
        {| latePaths := latePaths context ++ [task] |}).

(** ** One compiled unit *)

(** An instruction of the unit: a [Patch] carrying a [CheckSpecial], or an
    ordinary Air instruction. *)
Inductive UnitInst : Type :=
| patch (special : CheckSpecial) (inst : Inst)
| ordinary (inst : Inst).

(** Modelled from the spec: the driver of a unit's code generation is not
    part of the sources.  Per sections 4.6 and 5 of the design it emits
    every instruction of the unit in order, and only then runs the queued
    late paths, in the order they were appended, into the same buffer. *)
Fixpoint generateHot (unit : list UnitInst) (jit : Jit) (context : GenerationContext)
  : option (Jit * GenerationContext) :=
  match unit with
  | [] => Some (jit, context)
  | patch special inst :: rest =>
      r <- generate special inst jit context ;;
      generateHot rest (snd (fst r)) (snd r)
  | ordinary inst :: rest =>
      generateHot rest (snd (Inst_generate inst jit)) context
  end.

Fixpoint runLatePaths (tasks : list LatePath) (jit : Jit) : option Jit :=
  match tasks with
  | [] => Some jit
  | task :: rest =>
      jit' <- latePathFunction task jit ;;
      runLatePaths rest jit'
  end.

Definition generateUnit (unit : list UnitInst) : option Jit :=
  r <- generateHot unit [] {| latePaths := [] |} ;;
  runLatePaths (latePaths (snd r)) (fst r).

End CheckSpecial.

(** ** Opcode families by width, for stating results once for both widths *)

Definition BranchAdd (w : Width) : Opcode :=
  match w with Width32 => BranchAdd32 | Width64 => BranchAdd64 end.

Definition BranchSub (w : Width) : Opcode :=
  match w with Width32 => BranchSub32 | Width64 => BranchSub64 end.

Definition BranchNeg (w : Width) : Opcode :=
  match w with Width32 => BranchNeg32 | Width64 => BranchNeg64 end.

Definition Add (w : Width) : Opcode :=
  match w with Width32 => Add32 | Width64 => Add64 end.

Definition Sub (w : Width) : Opcode :=
  match w with Width32 => Sub32 | Width64 => Sub64 end.

Definition Neg (w : Width) : Opcode :=
  match w with Width32 => Neg32 | Width64 => Neg64 end.

Definition lshiftOp (w : Width) : Z -> GPRReg -> MacroOp :=
  match w with Width32 => lshift32 | Width64 => lshift64 end.

Definition urshiftOp (w : Width) : Z -> GPRReg -> MacroOp :=
  match w with Width32 => urshift32 | Width64 => urshift64 end.

Definition rshiftOp (w : Width) : Z -> GPRReg -> MacroOp :=
  match w with Width32 => rshift32 | Width64 => rshift64 end.

Definition orOp (w : Width) : GPRReg -> GPRReg -> MacroOp :=
  match w with Width32 => or32 | Width64 => or64 end.

(** The carry-reconstruction sequence of the fully aliased add. *)
Definition carryUndo (w : Width) (scratchGPR valueGPR : GPRReg) : list MacroOp :=
  [pushToSave scratchGPR;
   setCarry scratchGPR;
   lshiftOp w (bits w - 1) scratchGPR;
   urshiftOp w 1 valueGPR;
   orOp w scratchGPR valueGPR;
   popToRestore scratchGPR].

(** The hidden branch of a check whose saved operands are [operands]. *)
Definition hiddenOf (this : CheckSpecial) (o : option Value) (operands : list Arg) : Inst :=
  {| inst_kind := m_checkKind this; origin := o; args := operands |}.

(** ** Vocabulary for the results on code generation *)

(** The task [generate] queues for an instruction whose hidden branch is
    [hidden] and whose failure edge is [fail]. *)
Definition taskOf (E : Collaborators) (this : CheckSpecial) (inst hidden : Inst)
  (fail : Jump) (value : Value) (context : GenerationContext) (nb : nat) : LatePath :=
  {| lp_fail := fail;
     lp_this := this;
     lp_args := args hidden;
     lp_value := value;
     lp_reps := repsImpl E context nb (m_numCheckArgs this + 1) inst |}.

(** The checked instructions of a unit, in order. *)
Fixpoint patches (unit : list UnitInst) : list (CheckSpecial * Inst) :=
  match unit with
  | [] => []
  | patch special inst :: rest => (special, inst) :: patches rest
  | ordinary _ :: rest => patches rest
  end.

(** Hot-path code: the code of an Air instruction, as opposed to a link
    target or a recovery generator's code. *)
Definition isHot (e : Emitted) : bool :=
  match e with
  | code (air _) => true
  | _ => false
  end.

(** [task] is the late path of the checked instruction [p]: it carries the
    instruction's special and saved operands, and its failure edge is the
    hidden branch sitting in [buffer]. *)
Definition queuedFor (buffer : Jit) (p : CheckSpecial * Inst) (task : LatePath) : Prop :=
  exists hidden k,
    hiddenBranch (fst p) (snd p) = Some hidden
    /\ lp_this task = fst p
    /\ lp_args task = args hidden
    /\ lp_fail task = {| m_label := Some k |}
    /\ nth_error buffer k = Some (code (air hidden)).

(** The recovery stub a late path emits. *)
Definition stubOf (E : Collaborators) (task : LatePath) : option (list Emitted) :=
  undo <- undoOperation E (lp_this task) (lp_args task) ;;
  Some (link (lp_fail task) :: map code undo
        ++ [generator (m_generator (lp_value task)) (lp_value task) (lp_reps task)]).

(** A unit instruction that generates without tripping an assertion: an
    ordinary instruction, or a check whose hidden branch can be built and
    yields a jump, whose origin is a check value, and whose undo is
    defined on the target. *)
Definition generable (E : Collaborators) (u : UnitInst) : Prop :=
  match u with
  | ordinary _ => True
  | patch this inst =>
      exists hidden value nb,
        hiddenBranch this inst = Some hidden
        /\ producesJump (opcode (m_checkKind this)) = true
        /\ origin inst = Some value
        /\ numB3Args_Kind (kind value) = Some nb
        /\ undoOperation E this (args hidden) <> None
  end.

(** ** A concrete target

    A 64-bit target with two scratch candidates and a permissive stackmap
    policy, on which the statements below are instantiated. *)

Definition repForArg (a : Arg) : ValueRep :=
  match a with
  | Tmp r => RepRegister r
  | Stack off => RepStack off
  | Imm v => RepConstant v
  | _ => RepConstant 0
  end.

Definition sampleTarget : Collaborators :=
  {| is64Bit := true;
     selectScratchGPR := fun r => if Nat.eqb r 0 then 1%nat else 0%nat;
     isValidForm := fun hidden =>
       producesJump (opcode (inst_kind hidden)) && (2 <=? length (args hidden))%nat;
     Inst_forEachArg := fun hidden =>
       map (fun k => mkArgCall k Use GP Width64) (seq 0 (length (args hidden)));
     Inst_admitsStack := fun _ _ => false;
     Inst_shouldTryAliasingDef := fun _ => None;
     forEachArgImpl := fun nb na inst _ _ _ =>
       match origin inst with
       | Some v => map (fun k => mkArgCall (k + na) LateColdUse GP Width64)
                     (seq 0 (numChildren v - nb))
       | None => []
       end;
     isValidImpl := fun _ _ _ => true;
     admitsStackImpl := fun _ _ _ _ => true;
     repsImpl := fun _ nb na inst =>
       match origin inst with
       | Some v => map repForArg (firstn (numChildren v - nb) (skipn na (args inst)))
       | None => []
       end |}.

Definition sampleMachine (r0 r1 r2 : Z) : Machine :=
  {| regs := fun r => match r with
                      | O => r0
                      | S O => r1
                      | S (S O) => r2
                      | _ => 0
                      end;
     frame := fun _ => 0;
     carry := false;
     saved := [] |}.

Definition checkAddValue : Value :=
  {| kind := CheckAdd; numChildren := 3; m_generator := 7 |}.

Definition sampleSpecial (op : Opcode) (numArgs : nat) : CheckSpecial :=
  {| m_checkKind := {| opcode := op; effects := false |};
     m_stackmapRole := SameAsRep;
     m_numCheckArgs := numArgs |}.

Definition selfAdd32 : CheckSpecial := sampleSpecial BranchAdd32 3.

Definition selfAddInst : Inst :=
  {| inst_kind := {| opcode := Patch; effects := true |};
     origin := Some checkAddValue;
     args := [Special; ResCond Overflow; Tmp 2%nat; Tmp 2%nat; Stack 16] |}.

(** ** Dumping a key and a special *)

Module Dump.

Import String.

(** What [PrintStream::print] writes for the values this file hands it;
    the printers of [Air::Kind], [unsigned] and [RoleMode] live in other
    files. *)
Record Printers : Type := mkPrinters {
  printKind : Kind -> string;
  printUnsigned : nat -> string;
  printRoleMode : RoleMode -> string
}.

Section WithPrinters.

Variable P : Printers.

(** [out.print(a, b, ...)] appends the printed arguments in order. *)
Definition print (out : string) (parts : list string) : string :=
  fold_left append parts out.

(** [CheckSpecial::Key::dump]. *)
Definition Key_dump (key : Key) (out : string) : string :=
  print out [printKind P (key_kind key); "("%string;
             printUnsigned P (key_numArgs key); ","%string;
             printRoleMode P (key_stackmapRole key); ")"%string].

(** [CheckSpecial::dumpImpl]. *)
Definition dumpImpl (this : CheckSpecial) (out : string) : string :=
  print out [printKind P (m_checkKind this); "("%string;
             printUnsigned P (m_numCheckArgs this); ","%string;
             printRoleMode P (m_stackmapRole this); ")"%string].

(** [CheckSpecial::deepDumpImpl]. *)
Definition deepDumpImpl (this : CheckSpecial) (out : string) : string :=
  print out ["B3::CheckValue lowered to "%string; printKind P (m_checkKind this);
             " with "%string; printUnsigned P (m_numCheckArgs this);
             " args."%string].

End WithPrinters.

End Dump.

(** ** Wasm compilation modes ([WasmCompilationMode.h]) *)

Module Wasm.

Inductive CompilationMode : Type :=
| LLIntMode
| IPIntMode
| BBQMode
| BBQForOSREntryMode
| OMGMode
| OMGForOSREntryMode
| JSEntrypointJITMode
| JITLessJSEntrypointMode
| JSToWasmICMode
| WasmToJSMode.

Definition isOSREntry (compilationMode : CompilationMode) : bool :=
  match compilationMode with
  | LLIntMode
  | IPIntMode
  | BBQMode
  | OMGMode
  | JSEntrypointJITMode
  | JITLessJSEntrypointMode
  | JSToWasmICMode
  | WasmToJSMode => false
  | BBQForOSREntryMode
  | OMGForOSREntryMode => true
  end.

Definition isAnyBBQ (compilationMode : CompilationMode) : bool :=
  match compilationMode with
  | BBQMode
  | BBQForOSREntryMode => true
  | OMGForOSREntryMode
  | LLIntMode
  | IPIntMode
  | OMGMode
  | JSEntrypointJITMode
  | JITLessJSEntrypointMode
  | JSToWasmICMode
  | WasmToJSMode => false
  end.

Definition isAnyOMG (compilationMode : CompilationMode) : bool :=
  match compilationMode with
  | OMGMode
  | OMGForOSREntryMode => true
  | BBQMode
  | BBQForOSREntryMode
  | LLIntMode
  | IPIntMode
  | JSEntrypointJITMode
  | JITLessJSEntrypointMode
  | JSToWasmICMode
  | WasmToJSMode => false
  end.

End Wasm.

(** ** The display-list recorder's context state ([DisplayListRecorder.h]) *)

Module DisplayList.

Inductive Purpose : Type := Initial | SaveRestore | TransparencyLayer.

Section ContextState.

(** The graphics types are used here only by copying them; the clone of a
    [GraphicsContextState] lives in another file. *)
Variables GraphicsContextState AffineTransform FloatRect : Type.
Variable clone : GraphicsContextState -> Purpose -> GraphicsContextState.

Record ContextState : Type := mkContextState {
  state : GraphicsContextState;
  ctm : AffineTransform;
  clipBounds : FloatRect;
  lastDrawingState : option GraphicsContextState
}.

(** [ContextState::cloneForTransparencyLayer]: the [if] tests the local
    [lastDrawingStateClone], which was just default-constructed. *)
Definition cloneForTransparencyLayer (this : ContextState) : ContextState :=
  let stateClone := clone (state this) TransparencyLayer in
  let lastDrawingStateClone : option GraphicsContextState := None in
  let lastDrawingStateClone :=
    match lastDrawingStateClone with
    | Some _ =>
        match lastDrawingState this with
        | Some s => Some (clone s TransparencyLayer)
        | None => lastDrawingStateClone
        end
    | None => lastDrawingStateClone
    end in
  {| state := stateClone;
     ctm := ctm this;
     clipBounds := clipBounds this;
     lastDrawingState := lastDrawingStateClone |}.

End ContextState.

Arguments mkContextState {GraphicsContextState AffineTransform FloatRect}.
Arguments state {GraphicsContextState AffineTransform FloatRect}.
Arguments ctm {GraphicsContextState AffineTransform FloatRect}.
Arguments clipBounds {GraphicsContextState AffineTransform FloatRect}.
Arguments lastDrawingState {GraphicsContextState AffineTransform FloatRect}.
Arguments cloneForTransparencyLayer {GraphicsContextState AffineTransform FloatRect}.

End DisplayList.

(** ** Vocabulary for the results on operand classification and undo *)

(** The test of the lambda in [forEachArg]:
    [Arg::isAnyDef(role) && role != Arg::Scratch]. *)
Definition isDefCall (c : ArgCall) : bool :=
  isAnyDef (call_role c) && negb (Role_eqb (call_role c) Scratch).

(** A call on slot [index] of the hidden branch, as [forEachArg] passes it
    on: the same classification, on slot [1 + index] of the instruction. *)
Definition shiftCall (c : ArgCall) : ArgCall :=
  {| call_index := 1 + call_index c;
     call_role := call_role c;
     call_bank := call_bank c;
     call_width := call_width c |}.

(** Modelled from the spec: what the stackmap policy makes of the first
    recoverable index it is handed.  [StackmapSpecial::forEachArgImpl] is
    not part of the sources; by section 4.3 of the design the operand at
    that index is the one marked recoverable, and when no index is handed
    over no operand is. *)
Definition markedRecoverable (firstRecoverableIndex : option nat) (index : nat) : bool :=
  match firstRecoverableIndex with
  | Some first => Nat.eqb index first
  | None => false
  end.

(** The cases of the undo switch that sit under [if constexpr (is64Bit())]. *)
Definition undoNeeds64Bit (op : Opcode) : bool :=
  match op with
  | BranchAdd32 | BranchAdd64 | BranchSub64 | BranchNeg64 => true
  | _ => false
  end.

(** The opcodes the undo switch has a case for. *)
Definition hasUndoCase (op : Opcode) : bool :=
  match op with
  | BranchAdd32 | BranchAdd64 | BranchSub32 | BranchSub64
  | BranchNeg32 | BranchNeg64 => true
  | _ => false
  end.

(** Code that falls through: an assembler call, or an Air instruction that
    is not a terminal and has no origin. *)
Definition fallsThrough (op : MacroOp) : bool :=
  match op with
  | air i =>
      negb (isTerminal (opcode (inst_kind i)))
      && match origin i with None => true | Some _ => false end
  | _ => true
  end.

(** A target whose branches define two operands. *)
Definition twoDefTarget : Collaborators :=
  {| is64Bit := true;
     selectScratchGPR := selectScratchGPR sampleTarget;
     isValidForm := isValidForm sampleTarget;
     Inst_forEachArg := fun _ =>
       [mkArgCall 0 Use GP Width32;
        mkArgCall 1 Def GP Width32;
        mkArgCall 2 UseDef GP Width64];
     Inst_admitsStack := Inst_admitsStack sampleTarget;
     Inst_shouldTryAliasingDef := Inst_shouldTryAliasingDef sampleTarget;
     forEachArgImpl := forEachArgImpl sampleTarget;
     isValidImpl := isValidImpl sampleTarget;
     admitsStackImpl := admitsStackImpl sampleTarget;
     repsImpl := repsImpl sampleTarget |}.

(** ** More concrete inputs *)

(** Printers for small examples. *)
Module DumpSample.

Import String.

Definition printers : Dump.Printers :=
  {| Dump.printKind := fun k =>
       match opcode k with
       | BranchAdd32 => "BranchAdd32"%string
       | BranchSub32 => "BranchSub32"%string
       | _ => "Opcode"%string
       end;
     Dump.printUnsigned := fun n =>
       match n with
       | 2%nat => "2"%string
       | 3%nat => "3"%string
       | 4%nat => "4"%string
       | _ => "n"%string
       end;
     Dump.printRoleMode := fun r =>
       match r with
       | SameAsRep => "SameAsRep"%string
       | ForceLateUseUnlessRecoverable => "ForceLateUseUnlessRecoverable"%string
       | ForceLateUse => "ForceLateUse"%string
       end |}.

End DumpSample.

(** A target whose stackmap policy reports the first recoverable index it
    is handed, as one call on that slot, and nothing when it is handed
    none. *)
Definition probeTarget : Collaborators :=
  {| is64Bit := true;
     selectScratchGPR := selectScratchGPR sampleTarget;
     isValidForm := isValidForm sampleTarget;
     Inst_forEachArg := fun hidden =>
       match args hidden with
       | [_; _; _] => [mkArgCall 0 Use GP Width32;
                       mkArgCall 1 Use GP Width32;
                       mkArgCall 2 UseDef GP Width32]
       | _ => []
       end;
     Inst_admitsStack := Inst_admitsStack sampleTarget;
     Inst_shouldTryAliasingDef := Inst_shouldTryAliasingDef sampleTarget;
     forEachArgImpl := fun _ _ _ _ firstRecoverableIndex _ =>
       match firstRecoverableIndex with
       | Some first => [mkArgCall first Use GP Width64]
       | None => []
       end;
     isValidImpl := isValidImpl sampleTarget;
     admitsStackImpl := admitsStackImpl sampleTarget;
     repsImpl := repsImpl sampleTarget |}.

(** A 32-bit target. *)
Definition sampleTarget32 : Collaborators :=
  {| is64Bit := false;
     selectScratchGPR := selectScratchGPR sampleTarget;
     isValidForm := isValidForm sampleTarget;
     Inst_forEachArg := Inst_forEachArg sampleTarget;
     Inst_admitsStack := Inst_admitsStack sampleTarget;
     Inst_shouldTryAliasingDef := Inst_shouldTryAliasingDef sampleTarget;
     forEachArgImpl := forEachArgImpl sampleTarget;
     isValidImpl := isValidImpl sampleTarget;
     admitsStackImpl := admitsStackImpl sampleTarget;
     repsImpl := repsImpl sampleTarget |}.

(** A target whose add-with-flags branches classify their operands as
    condition, use, use-and-define, and suggest aliasing the defined
    operand. *)
Definition aliasingTarget : Collaborators :=
  {| is64Bit := true;
     selectScratchGPR := selectScratchGPR sampleTarget;
     isValidForm := isValidForm sampleTarget;
     Inst_forEachArg := fun hidden =>
       match args hidden with
       | [_; _; _] => [mkArgCall 0 Use GP Width32;
                       mkArgCall 1 Use GP Width32;
                       mkArgCall 2 UseDef GP Width32]
       | _ => []
       end;
     Inst_admitsStack := fun _ i => Nat.eqb i 1;
     Inst_shouldTryAliasingDef := fun _ => Some 2%nat;
     forEachArgImpl := forEachArgImpl sampleTarget;
     isValidImpl := isValidImpl sampleTarget;
     admitsStackImpl := admitsStackImpl sampleTarget;
     repsImpl := repsImpl sampleTarget |}.

(** A check lowered to a two-register add: [r1 := r1 + r0]. *)
Definition addInst : Inst :=
  {| inst_kind := {| opcode := Patch; effects := true |};
     origin := Some checkAddValue;
     args := [Special; ResCond Overflow; Tmp 0%nat; Tmp 1%nat; Stack 16] |}.

(** * Results *)

(** ** Arithmetic at a width *)

Lemma modulus_pos (w : Width) : 0 < modulus w.
Proof. destruct w; reflexivity. Qed.

Lemma modulus_double (w : Width) : modulus w = 2 * minSigned w.
Proof. destruct w; reflexivity. Qed.

Lemma wrap_range (w : Width) (x : Z) : 0 <= wrap w x < modulus w.
Proof. unfold wrap. apply Z.mod_pos_bound, modulus_pos. Qed.

Lemma wrap_small (w : Width) (x : Z) : 0 <= x < modulus w -> wrap w x = x.
Proof. intros H. unfold wrap. now apply Z.mod_small. Qed.

Lemma wrap_wrap (w : Width) (x : Z) : wrap w (wrap w x) = wrap w x.
Proof. apply wrap_small, wrap_range. Qed.

(** Adding the subtrahend back undoes a wrapped subtraction. *)
Lemma wrap_sub_add (w : Width) (a b : Z) :
  0 <= a < modulus w -> wrap w (wrap w (a - b) + b) = a.
Proof.
  intros Ha. unfold wrap.
  rewrite Z.add_mod_idemp_l by (pose proof (modulus_pos w); lia).
  replace (a - b + b) with a by lia.
  now apply Z.mod_small.
Qed.

(** Subtracting an addend undoes a wrapped addition. *)
Lemma wrap_add_sub (w : Width) (a b : Z) :
  0 <= a < modulus w -> wrap w (wrap w (a + b) - b) = a.
Proof.
  intros Ha. unfold wrap.
  rewrite Zminus_mod_idemp_l.
  replace (a + b - b) with a by lia.
  now apply Z.mod_small.
Qed.

(** Negation at a width is an involution, on every bit pattern. *)
Lemma wrap_neg_neg (w : Width) (a : Z) :
  0 <= a < modulus w -> wrap w (- wrap w (- a)) = a.
Proof.
  intros Ha. unfold wrap.
  pose proof (modulus_pos w) as Hm.
  destruct (Z.eq_dec a 0) as [-> | Hnz].
  - now rewrite Z.mod_0_l by lia.
  - rewrite (Z.mod_opp_l_nz a) by (rewrite ?Z.mod_small; lia).
    rewrite (Z.mod_small a) by lia.
    replace (- (modulus w - a)) with (a + (-1) * modulus w) by lia.
    rewrite Z.mod_add by lia.
    now apply Z.mod_small.
Qed.

Lemma land_pow2_small (j x : Z) : 0 <= j -> 0 <= x < 2 ^ j -> Z.land (2 ^ j) x = 0.
Proof.
  intros Hj Hx. apply Z.bits_inj'. intros n Hn.
  rewrite Z.land_spec, Z.bits_0, Z.pow2_bits_eqb by lia.
  destruct (Z.eqb_spec j n) as [-> | Hne]; [ | reflexivity ].
  rewrite <- (Z.mod_small x (2 ^ n)) by lia.
  now rewrite Z.mod_pow2_bits_high by lia.
Qed.

Lemma lor_pow2_small (j x : Z) : 0 <= j -> 0 <= x < 2 ^ j -> Z.lor (2 ^ j) x = 2 ^ j + x.
Proof.
  intros Hj Hx.
  rewrite <- Z.lxor_lor by now apply land_pow2_small.
  symmetry. apply Z.add_nocarry_lxor. now apply land_pow2_small.
Qed.

(** The carry out of [a + a] is the top bit of [a], and the wrapped sum
    shifted right by one is the rest of [a]. *)
Lemma carry_reconstruct (k a : Z) :
  0 < k -> 0 <= a < 2 ^ k ->
  Z.lor (Z.shiftl (Z.b2z (2 ^ k <=? a + a)) (k - 1))
        (Z.shiftr ((a + a) mod 2 ^ k) 1) = a.
Proof.
  intros Hk Ha.
  assert (Hpow : 2 ^ k = 2 * 2 ^ (k - 1)).
  { rewrite <- Z.pow_succ_r by lia. f_equal. lia. }
  rewrite Z.shiftr_div_pow2 by lia. change (2 ^ 1) with 2.
  destruct (Z.leb_spec (2 ^ k) (a + a)) as [Hc | Hc]; cbn [Z.b2z].
  - rewrite Z.shiftl_1_l.
    assert (Hr : (a + a) mod 2 ^ k = a + a - 2 ^ k).
    { symmetry. apply Z.mod_unique with (q := 1); lia. }
    rewrite Hr.
    replace ((a + a - 2 ^ k) / 2) with (a - 2 ^ (k - 1))
      by (apply Z.div_unique with (r := 0); lia).
    rewrite lor_pow2_small by lia. lia.
  - rewrite Z.shiftl_0_l, Z.lor_0_l, Z.mod_small by lia.
    symmetry. apply Z.div_unique with (r := 0); lia.
Qed.

(** ** Operands and registers *)

Lemma ResultCondition_eqb_eq (c d : ResultCondition) :
  ResultCondition_eqb c d = true <-> c = d.
Proof. destruct c, d; cbn; split; intros H; congruence. Qed.

Lemma Arg_eqb_eq (a b : Arg) : Arg_eqb a b = true <-> a = b.
Proof.
  destruct a, b; cbn; split; intros H; try congruence.
  - apply Nat.eqb_eq in H. congruence.
  - apply Nat.eqb_eq. congruence.
  - apply Z.eqb_eq in H. congruence.
  - apply Z.eqb_eq. congruence.
  - apply Z.eqb_eq in H. congruence.
  - apply Z.eqb_eq. congruence.
  - apply ResultCondition_eqb_eq in H. congruence.
  - apply ResultCondition_eqb_eq. congruence.
Qed.

Lemma Arg_eqb_refl (a : Arg) : Arg_eqb a a = true.
Proof. now apply Arg_eqb_eq. Qed.

Lemma Arg_eqb_neq (a b : Arg) : a <> b -> Arg_eqb a b = false.
Proof.
  intros H. destruct (Arg_eqb a b) eqn:Heq; [ | reflexivity ].
  apply Arg_eqb_eq in Heq. contradiction.
Qed.

Lemma regs_setReg_same (m : Machine) (r : GPRReg) (v : Z) : regs (setReg m r v) r = v.
Proof. cbn. now rewrite Nat.eqb_refl. Qed.

Lemma regs_setReg_other (m : Machine) (r r' : GPRReg) (v : Z) :
  r' <> r -> regs (setReg m r v) r' = regs m r'.
Proof. intros H. cbn. apply Nat.eqb_neq in H. now rewrite H. Qed.

Lemma readArg_setReg_other (w : Width) (m : Machine) (d : GPRReg) (v : Z) (a : Arg) :
  a <> Tmp d -> readArg w (setReg m d v) a = readArg w m a.
Proof.
  intros H. destruct a as [r | | | | ]; try reflexivity.
  unfold readArg. rewrite regs_setReg_other; [ reflexivity | congruence ].
Qed.

Lemma readArg_setCarryFlag (w : Width) (m : Machine) (c : bool) (a : Arg) :
  readArg w (setCarryFlag m c) a = readArg w m a.
Proof. now destruct a. Qed.

Lemma readArg_range (w : Width) (m : Machine) (a : Arg) (x : Z) :
  readArg w m a = Some x -> 0 <= x < modulus w.
Proof.
  destruct a; cbn; intros H; inversion H; subst; apply wrap_range.
Qed.

(** ** What the arithmetic instructions leave in their destination *)

Lemma addFlags_dst (w : Width) (a b : Arg) (d : GPRReg) (m : Machine) (x y : Z) :
  readArg w m a = Some x -> readArg w m b = Some y ->
  exists m', addFlags w a b (Tmp d) m = Some m'
             /\ regs m' d = wrap w (x + y)
             /\ carry m' = (modulus w <=? x + y)
             /\ saved m' = saved m
             /\ (forall r, r <> d -> regs m' r = regs m r)
             /\ (forall s, s <> Tmp d -> readArg w m' s = readArg w m s).
Proof.
  intros Ha Hb. unfold addFlags. rewrite Ha, Hb. cbn [bind writeArg].
  eexists. split; [ reflexivity | ].
  repeat split.
  - apply regs_setReg_same.
  - intros r Hr. cbn. apply Nat.eqb_neq in Hr. now rewrite Hr.
  - intros s Hs. rewrite readArg_setCarryFlag. now apply readArg_setReg_other.
Qed.

Lemma subFlags_dst (w : Width) (src : Arg) (d : GPRReg) (m : Machine) (x y : Z) :
  readArg w m (Tmp d) = Some x -> readArg w m src = Some y ->
  exists m', subFlags w src (Tmp d) m = Some m'
             /\ regs m' d = wrap w (x - y)
             /\ (forall s, s <> Tmp d -> readArg w m' s = readArg w m s).
Proof.
  intros Hd Hs. unfold subFlags. rewrite Hd, Hs. cbn [bind writeArg].
  eexists. split; [ reflexivity | ]. split.
  - apply regs_setReg_same.
  - intros s Hne. rewrite readArg_setCarryFlag. now apply readArg_setReg_other.
Qed.

Lemma negFlags_dst (w : Width) (d : GPRReg) (m : Machine) (x : Z) :
  readArg w m (Tmp d) = Some x ->
  exists m', negFlags w (Tmp d) m = Some m' /\ regs m' d = wrap w (- x).
Proof.
  intros Hd. unfold negFlags. rewrite Hd. cbn [bind writeArg].
  eexists. split; [ reflexivity | ]. apply regs_setReg_same.
Qed.

Lemma readArg_Tmp (w : Width) (m : Machine) (d : GPRReg) (a : Z) :
  0 <= a < modulus w -> regs m d = a -> readArg w m (Tmp d) = Some a.
Proof. intros Ha Hd. cbn. now rewrite Hd, wrap_small. Qed.

Lemma readArg_Tmp_wrapped (w : Width) (m : Machine) (d : GPRReg) (x : Z) :
  regs m d = wrap w x -> readArg w m (Tmp d) = Some (wrap w x).
Proof. intros Hd. cbn. now rewrite Hd, wrap_wrap. Qed.

(** ** Undo after a checked subtract *)

(** C2, as the code has it. For a checked subtract ([BranchSub32],
    [BranchSub64]) whose subtrahend operand [args[1]] is not the
    destination register [args[2]], the late path emits one add of
    [args[1]] to [args[2]]; whatever the destination value [a] and the
    subtrahend value [b] were, the subtraction followed by this add leaves
    [a] in the destination: [((a - b) mod 2^w + b) mod 2^w = a]. *)
Theorem undo_checked_sub
  (E : Collaborators) (w : Width) (this : CheckSpecial) (o : option Value)
  (cond : ResultCondition) (src : Arg) (d : GPRReg) (m : Machine) (a b : Z) :
  opcode (m_checkKind this) = BranchSub w ->
  (w = Width64 -> is64Bit E = true) ->
  src <> Tmp d ->
  0 <= a < modulus w ->
  regs m d = a ->
  readArg w m src = Some b ->
  undoOperation E this [ResCond cond; src; Tmp d]
    = Some [air (Inst_of (Add w) [src; Tmp d])]
  /\ wrap w (wrap w (a - b) + b) = a
  /\ exists m1 m2,
       execAir (hiddenOf this o [ResCond cond; src; Tmp d]) m = Some m1
       /\ regs m1 d = wrap w (a - b)
       /\ run [air (Inst_of (Add w) [src; Tmp d])] m1 = Some m2
       /\ regs m2 d = a.
Proof.
  intros Hop H64 Hsrc Ha Hd Hb.
  split; [ | split ].
  - unfold undoOperation. rewrite Hop.
    destruct w; cbn; [ reflexivity | ].
    now rewrite H64.
  - now apply wrap_sub_add.
  - destruct (subFlags_dst w src d m a b) as (m1 & Hm1 & Hr1 & Hframe).
    { now apply readArg_Tmp. }
    { exact Hb. }
    destruct (addFlags_dst w src (Tmp d) d m1 b (wrap w (a - b))) as (m2 & Hm2 & Hr2 & _).
    { rewrite Hframe by exact Hsrc. exact Hb. }
    { now apply readArg_Tmp_wrapped. }
    exists m1, m2. repeat split.
    + unfold execAir, hiddenOf. cbn [inst_kind args]. rewrite Hop.
      destruct w; exact Hm1.
    + exact Hr1.
    + cbn [run exec]. unfold execAir, Inst_of. cbn [inst_kind args opcode].
      destruct w; cbn [Add]; rewrite Hm2; reflexivity.
    + rewrite Hr2, Z.add_comm. now apply wrap_sub_add.
Qed.

Lemma undo_checked_sub_witness :
  undoOperation sampleTarget (sampleSpecial BranchSub32 3)
      [ResCond Overflow; Tmp 1%nat; Tmp 0%nat]
    = Some [air (Inst_of Add32 [Tmp 1%nat; Tmp 0%nat])]
  /\ wrap Width32 (wrap Width32 (5 - 7) + 7) = 5
  /\ exists m1 m2,
       execAir (hiddenOf (sampleSpecial BranchSub32 3) None
                  [ResCond Overflow; Tmp 1%nat; Tmp 0%nat]) (sampleMachine 5 7 0)
         = Some m1
       /\ regs m1 0%nat = wrap Width32 (5 - 7)
       /\ run [air (Inst_of Add32 [Tmp 1%nat; Tmp 0%nat])] m1 = Some m2
       /\ regs m2 0%nat = 5.
Proof.
  apply (undo_checked_sub sampleTarget Width32 (sampleSpecial BranchSub32 3)
           None Overflow (Tmp 1%nat) 0%nat (sampleMachine 5 7 0) 5 7).
  - reflexivity.
  - reflexivity.
  - discriminate.
  - unfold modulus; cbn; lia.
  - reflexivity.
  - reflexivity.
Defined.

(** C2, as the design words it, fails when the subtrahend operand is the
    destination register itself: the switch has no aliasing case for the
    subtract, so from [5] the subtract leaves [0], the emitted add adds
    the register to itself, and the register ends at [0], not at [5]. *)
Lemma undo_checked_sub_fails_when_aliased :
  undoOperation sampleTarget (sampleSpecial BranchSub32 3)
      [ResCond Overflow; Tmp 0%nat; Tmp 0%nat]
    = Some [air (Inst_of Add32 [Tmp 0%nat; Tmp 0%nat])]
  /\ regs (sampleMachine 5 7 0) 0%nat = 5
  /\ option_map (fun m => regs m 0%nat)
       (run [air (hiddenOf (sampleSpecial BranchSub32 3) None
                    [ResCond Overflow; Tmp 0%nat; Tmp 0%nat]);
             air (Inst_of Add32 [Tmp 0%nat; Tmp 0%nat])]
            (sampleMachine 5 7 0))
     = Some 0
  /\ 0 <> 5.
Proof.
  split; [ reflexivity | ].
  split; [ reflexivity | ].
  split; [ vm_compute; reflexivity | discriminate ].
Qed.

(** ** Undo after a checked negate *)

(** C4. For a checked negate ([BranchNeg32], [BranchNeg64]) the late path
    emits one negate of the destination [args[1]]; for every value [a] of
    the width other than the most negative one, the negate followed by
    this second negate leaves [a] in the destination. *)
Theorem undo_checked_neg
  (E : Collaborators) (w : Width) (this : CheckSpecial) (o : option Value)
  (cond : ResultCondition) (d : GPRReg) (m : Machine) (a : Z) :
  opcode (m_checkKind this) = BranchNeg w ->
  (w = Width64 -> is64Bit E = true) ->
  0 <= a < modulus w ->
  a <> minSigned w ->
  regs m d = a ->
  undoOperation E this [ResCond cond; Tmp d] = Some [air (Inst_of (Neg w) [Tmp d])]
  /\ wrap w (- wrap w (- a)) = a
  /\ exists m1 m2,
       execAir (hiddenOf this o [ResCond cond; Tmp d]) m = Some m1
       /\ regs m1 d = wrap w (- a)
       /\ run [air (Inst_of (Neg w) [Tmp d])] m1 = Some m2
       /\ regs m2 d = a.
Proof.
  intros Hop H64 Ha _ Hd.
  split; [ | split ].
  - unfold undoOperation. rewrite Hop.
    destruct w; cbn; [ reflexivity | ].
    now rewrite H64.
  - now apply wrap_neg_neg.
  - destruct (negFlags_dst w d m a) as (m1 & Hm1 & Hr1).
    { now apply readArg_Tmp. }
    destruct (negFlags_dst w d m1 (wrap w (- a))) as (m2 & Hm2 & Hr2).
    { now apply readArg_Tmp_wrapped. }
    exists m1, m2. repeat split.
    + unfold execAir, hiddenOf. cbn [inst_kind args]. rewrite Hop.
      destruct w; exact Hm1.
    + exact Hr1.
    + cbn [run exec]. unfold execAir, Inst_of. cbn [inst_kind args opcode].
      destruct w; cbn [Neg]; rewrite Hm2; reflexivity.
    + rewrite Hr2. now apply wrap_neg_neg.
Qed.

Lemma undo_checked_neg_witness :
  undoOperation sampleTarget (sampleSpecial BranchNeg64 2) [ResCond Overflow; Tmp 2%nat]
    = Some [air (Inst_of Neg64 [Tmp 2%nat])]
  /\ wrap Width64 (- wrap Width64 (- 41)) = 41
  /\ exists m1 m2,
       execAir (hiddenOf (sampleSpecial BranchNeg64 2) None [ResCond Overflow; Tmp 2%nat])
               (sampleMachine 0 0 41)
         = Some m1
       /\ regs m1 2%nat = wrap Width64 (- 41)
       /\ run [air (Inst_of Neg64 [Tmp 2%nat])] m1 = Some m2
       /\ regs m2 2%nat = 41.
Proof.
  apply (undo_checked_neg sampleTarget Width64 (sampleSpecial BranchNeg64 2)
           None Overflow 2%nat (sampleMachine 0 0 41) 41).
  - reflexivity.
  - reflexivity.
  - unfold modulus; cbn; lia.
  - unfold minSigned; cbn; lia.
  - reflexivity.
Defined.

(** ** Undo after a checked add with one source aliasing the destination *)

(** C5. For a four-operand checked add whose two sources [args[1]] and
    [args[2]] differ and one of which is the destination [args[3]], the
    late path emits one subtract, from the destination, of the source that
    is not the destination; whatever the two source values were, the add
    followed by this subtract leaves the destination's value from before
    the add. *)
Theorem undo_checked_add_one_alias
  (E : Collaborators) (w : Width) (this : CheckSpecial) (o : option Value)
  (cond : ResultCondition) (a1 a2 other : Arg) (d : GPRReg) (m : Machine) (a b : Z) :
  opcode (m_checkKind this) = BranchAdd w ->
  m_numCheckArgs this = 4%nat ->
  is64Bit E = true ->
  a1 <> a2 ->
  (a1 = Tmp d /\ other = a2) \/ (a2 = Tmp d /\ other = a1) ->
  0 <= a < modulus w ->
  regs m d = a ->
  readArg w m other = Some b ->
  undoOperation E this [ResCond cond; a1; a2; Tmp d]
    = Some [air (Inst_of (Sub w) [other; Tmp d])]
  /\ wrap w (wrap w (a + b) - b) = a
  /\ exists m1 m2,
       execAir (hiddenOf this o [ResCond cond; a1; a2; Tmp d]) m = Some m1
       /\ regs m1 d = wrap w (a + b)
       /\ run [air (Inst_of (Sub w) [other; Tmp d])] m1 = Some m2
       /\ regs m2 d = a.
Proof.
  intros Hop Hn H64 Hne Hshape Ha Hd Hb.
  assert (Hother : other <> Tmp d) by (destruct Hshape as [[? ?] | [? ?]]; congruence).
  assert (Hdst : readArg w m (Tmp d) = Some a) by now apply readArg_Tmp.
  split; [ | split ].
  - unfold undoOperation, allOperandsAliased. rewrite Hop, Hn.
    destruct Hshape as [[-> ->] | [-> ->]].
    + destruct w; cbn [BranchAdd Sub]; rewrite H64; cbn [Nat.eqb at_ nth_error bind];
        rewrite (Arg_eqb_neq _ _ Hne), Arg_eqb_refl; reflexivity.
    + destruct w; cbn [BranchAdd Sub]; rewrite H64; cbn [Nat.eqb at_ nth_error bind];
        rewrite (Arg_eqb_neq _ _ Hother), Arg_eqb_refl; reflexivity.
  - now apply wrap_add_sub.
  - assert (Hadd : exists m1, addFlags w a1 a2 (Tmp d) m = Some m1
                              /\ regs m1 d = wrap w (a + b)
                              /\ readArg w m1 other = Some b).
    { destruct Hshape as [[-> ->] | [-> ->]].
      - destruct (addFlags_dst w (Tmp d) a2 d m a b Hdst Hb)
          as (m1 & Hm1 & Hr1 & _ & _ & _ & Hframe).
        exists m1. repeat split; try assumption.
        now rewrite Hframe.
      - destruct (addFlags_dst w a1 (Tmp d) d m b a Hb Hdst)
          as (m1 & Hm1 & Hr1 & _ & _ & _ & Hframe).
        exists m1. repeat split; try assumption.
        + now rewrite Hr1, Z.add_comm.
        + now rewrite Hframe. }
    destruct Hadd as (m1 & Hm1 & Hr1 & Hb1).
    destruct (subFlags_dst w other d m1 (wrap w (a + b)) b) as (m2 & Hm2 & Hr2 & _).
    { now apply readArg_Tmp_wrapped. }
    { exact Hb1. }
    exists m1, m2. repeat split.
    + unfold execAir, hiddenOf. cbn [inst_kind args]. rewrite Hop.
      destruct w; exact Hm1.
    + exact Hr1.
    + cbn [run exec]. unfold execAir, Inst_of. cbn [inst_kind args opcode].
      destruct w; cbn [Sub]; rewrite Hm2; reflexivity.
    + rewrite Hr2. now apply wrap_add_sub.
Qed.

Lemma undo_checked_add_one_alias_witness :
  undoOperation sampleTarget (sampleSpecial BranchAdd32 4)
      [ResCond Overflow; Tmp 1%nat; Tmp 0%nat; Tmp 0%nat]
    = Some [air (Inst_of Sub32 [Tmp 1%nat; Tmp 0%nat])]
  /\ wrap Width32 (wrap Width32 (4294967295 + 9) - 9) = 4294967295
  /\ exists m1 m2,
       execAir (hiddenOf (sampleSpecial BranchAdd32 4) None
                  [ResCond Overflow; Tmp 1%nat; Tmp 0%nat; Tmp 0%nat])
               (sampleMachine 4294967295 9 0)
         = Some m1
       /\ regs m1 0%nat = wrap Width32 (4294967295 + 9)
       /\ run [air (Inst_of Sub32 [Tmp 1%nat; Tmp 0%nat])] m1 = Some m2
       /\ regs m2 0%nat = 4294967295.
Proof.
  apply (undo_checked_add_one_alias sampleTarget Width32 (sampleSpecial BranchAdd32 4)
           None Overflow (Tmp 1%nat) (Tmp 0%nat) (Tmp 1%nat) 0%nat
           (sampleMachine 4294967295 9 0) 4294967295 9).
  - reflexivity.
  - reflexivity.
  - reflexivity.
  - discriminate.
  - right. split; reflexivity.
  - unfold modulus; cbn; lia.
  - reflexivity.
  - reflexivity.
Defined.

(** ** Undo after a fully aliased checked add *)

Lemma bits_pos (w : Width) : 0 < bits w.
Proof. destruct w; reflexivity. Qed.

Lemma shiftAmount_top (w : Width) : shiftAmount w (bits w - 1) = bits w - 1.
Proof. destruct w; reflexivity. Qed.

Lemma shiftAmount_one (w : Width) : shiftAmount w 1 = 1.
Proof. destruct w; reflexivity. Qed.

Lemma shiftl_flag_range (w : Width) (c : bool) :
  0 <= Z.shiftl (Z.b2z c) (bits w - 1) < modulus w.
Proof.
  rewrite modulus_double. unfold minSigned.
  pose proof (bits_pos w) as Hk.
  assert (0 < 2 ^ (bits w - 1)) by (apply Z.pow_pos_nonneg; lia).
  destruct c; cbn [Z.b2z].
  - rewrite Z.shiftl_1_l. lia.
  - rewrite Z.shiftl_0_l. lia.
Qed.

(** What the six instructions of the carry reconstruction compute. *)
Lemma run_carryUndo (w : Width) (s v : GPRReg) (m : Machine) :
  s <> v ->
  exists m',
    run (carryUndo w s v) m = Some m'
    /\ regs m' v
       = wrap w (Z.lor (wrap w (Z.shiftl (wrap w (Z.b2z (carry m))) (bits w - 1)))
                       (Z.shiftr (wrap w (regs m v)) 1))
    /\ (forall r, r <> v -> regs m' r = regs m r)
    /\ saved m' = saved m
    /\ carry m' = carry m.
Proof.
  intros Hsv.
  assert (Hvs : Nat.eqb v s = false) by (apply Nat.eqb_neq; congruence).
  assert (Hsv' : Nat.eqb s v = false) by now apply Nat.eqb_neq.
  destruct w.
  - eexists. split; [ reflexivity | ].
    split; [ | split; [ | split; reflexivity ] ].
    + cbn [regs setReg lshift urshift or_ saved carry].
      rewrite ?Nat.eqb_refl, ?Hvs, ?Hsv', ?Nat.eqb_refl. reflexivity.
    + intros r Hr.
      assert (Hrv : Nat.eqb r v = false) by now apply Nat.eqb_neq.
      cbn [regs setReg lshift urshift or_ saved carry].
      rewrite ?Hrv. destruct (Nat.eqb r s) eqn:Hrs; [ | reflexivity ].
      apply Nat.eqb_eq in Hrs. now subst r.
  - eexists. split; [ reflexivity | ].
    split; [ | split; [ | split; reflexivity ] ].
    + cbn [regs setReg lshift urshift or_ saved carry].
      rewrite ?Nat.eqb_refl, ?Hvs, ?Hsv', ?Nat.eqb_refl. reflexivity.
    + intros r Hr.
      assert (Hrv : Nat.eqb r v = false) by now apply Nat.eqb_neq.
      cbn [regs setReg lshift urshift or_ saved carry].
      rewrite ?Hrv. destruct (Nat.eqb r s) eqn:Hrs; [ | reflexivity ].
      apply Nat.eqb_eq in Hrs. now subst r.
Qed.

(** C1. When a checked add is lowered with all its operands in one
    register (three check operands with [args[1] == args[2]], or four with
    [args[1] == args[2] == args[3]]), the late path emits the carry
    reconstruction; with [r] the wrapped sum [a + a] and [c] its carry out,
    [(c << (w-1)) | (r >> 1)] is [a], and running the emitted sequence
    after the add leaves [a] in the register, at both widths. *)
Theorem undo_self_aliased_add
  (E : Collaborators) (w : Width) (this : CheckSpecial) (o : option Value)
  (cond : ResultCondition) (v : GPRReg) (operands : list Arg) (m : Machine) (a : Z) :
  selectScratchGPR E v <> v ->
  is64Bit E = true ->
  opcode (m_checkKind this) = BranchAdd w ->
  (m_numCheckArgs this = 4%nat /\ operands = [ResCond cond; Tmp v; Tmp v; Tmp v])
  \/ (m_numCheckArgs this = 3%nat /\ operands = [ResCond cond; Tmp v; Tmp v]) ->
  0 <= a < modulus w ->
  regs m v = a ->
  undoOperation E this operands = Some (carryUndo w (selectScratchGPR E v) v)
  /\ Z.lor (Z.shiftl (Z.b2z (modulus w <=? a + a)) (bits w - 1))
           (Z.shiftr (wrap w (a + a)) 1) = a
  /\ exists m1 m2,
       execAir (hiddenOf this o operands) m = Some m1
       /\ regs m1 v = wrap w (a + a)
       /\ carry m1 = (modulus w <=? a + a)
       /\ run (carryUndo w (selectScratchGPR E v) v) m1 = Some m2
       /\ regs m2 v = a
       /\ (forall r, r <> v -> regs m2 r = regs m r)
       /\ saved m2 = saved m.
Proof.
  intros Hscratch H64 Hop Hshape Ha Hv.
  assert (Hrec : Z.lor (Z.shiftl (Z.b2z (modulus w <=? a + a)) (bits w - 1))
                       (Z.shiftr (wrap w (a + a)) 1) = a).
  { unfold wrap, modulus. apply carry_reconstruct; [ apply bits_pos | exact Ha ]. }
  assert (Hread : readArg w m (Tmp v) = Some a) by now apply readArg_Tmp.
  split; [ | split; [ exact Hrec | ] ].
  - unfold undoOperation, allOperandsAliased. rewrite Hop.
    destruct Hshape as [[-> ->] | [-> ->]];
      destruct w; cbn [BranchAdd]; rewrite H64;
      cbn [Nat.eqb at_ nth_error bind]; rewrite !Arg_eqb_refl; reflexivity.
  - destruct (addFlags_dst w (Tmp v) (Tmp v) v m a a Hread Hread)
      as (m1 & Hm1 & Hr1 & Hc1 & Hs1 & Hregs1 & _).
    destruct (run_carryUndo w (selectScratchGPR E v) v m1 Hscratch)
      as (m2 & Hm2 & Hr2 & Hregs2 & Hs2 & _).
    exists m1, m2. repeat split.
    + unfold execAir, hiddenOf. cbn [inst_kind args]. rewrite Hop.
      destruct Hshape as [[_ ->] | [_ ->]]; destruct w; exact Hm1.
    + exact Hr1.
    + exact Hc1.
    + exact Hm2.
    + rewrite Hr2, Hc1, Hr1, wrap_wrap.
      rewrite (wrap_small w (Z.b2z _)).
      * rewrite (wrap_small w (Z.shiftl _ _)) by apply shiftl_flag_range.
        rewrite Hrec. now apply wrap_small.
      * pose proof (modulus_double w). unfold minSigned in *.
        pose proof (bits_pos w).
        assert (0 < 2 ^ (bits w - 1)) by (apply Z.pow_pos_nonneg; lia).
        destruct (modulus w <=? a + a); cbn; lia.
    + intros r Hr. rewrite Hregs2 by exact Hr. now apply Hregs1.
    + now rewrite Hs2.
Qed.

Lemma undo_self_aliased_add_witness :
  undoOperation sampleTarget selfAdd32 [ResCond Overflow; Tmp 2%nat; Tmp 2%nat]
    = Some (carryUndo Width32 0%nat 2%nat)
  /\ Z.lor (Z.shiftl (Z.b2z (modulus Width32 <=? 3000000000 + 3000000000)) 31)
           (Z.shiftr (wrap Width32 (3000000000 + 3000000000)) 1) = 3000000000
  /\ exists m1 m2,
       execAir (hiddenOf selfAdd32 None [ResCond Overflow; Tmp 2%nat; Tmp 2%nat])
               (sampleMachine 5 6 3000000000) = Some m1
       /\ regs m1 2%nat = wrap Width32 (3000000000 + 3000000000)
       /\ carry m1 = (modulus Width32 <=? 3000000000 + 3000000000)
       /\ run (carryUndo Width32 0%nat 2%nat) m1 = Some m2
       /\ regs m2 2%nat = 3000000000
       /\ (forall r, r <> 2%nat -> regs m2 r = regs (sampleMachine 5 6 3000000000) r)
       /\ saved m2 = saved (sampleMachine 5 6 3000000000).
Proof.
  apply (undo_self_aliased_add sampleTarget Width32 selfAdd32 None Overflow 2%nat
           [ResCond Overflow; Tmp 2%nat; Tmp 2%nat] (sampleMachine 5 6 3000000000)
           3000000000).
  - discriminate.
  - reflexivity.
  - reflexivity.
  - right. split; reflexivity.
  - unfold modulus; cbn; lia.
  - reflexivity.
Defined.

(** The right shift of the reconstruction is the logical one: it halves the
    width-truncated register and leaves the top bit of the width clear. *)
Lemma urshift_one_logical (w : Width) (v : GPRReg) (m : Machine) :
  exists m',
    exec (urshiftOp w 1 v) m = Some m'
    /\ regs m' v = wrap w (regs m v) / 2
    /\ 0 <= regs m' v < minSigned w.
Proof.
  exists (urshift w 1 v m). split; [ now destruct w | ].
  unfold urshift. rewrite regs_setReg_same, shiftAmount_one.
  rewrite Z.shiftr_div_pow2 by lia. change (2 ^ 1) with 2.
  split; [ reflexivity | ].
  pose proof (wrap_range w (regs m v)) as Hr.
  rewrite modulus_double in Hr.
  split.
  - apply Z.div_pos; lia.
  - apply Z.div_lt_upper_bound; lia.
Qed.

(** C3, as the code has it. In the undo sequence of a fully aliased checked
    add, the step applied to the corrupted result register is a logical
    (zero-filling) right shift by one bit, [urshift32] or [urshift64], and
    the next step ORs the carry-derived sign bit into it. *)
Theorem self_aliased_add_shift_is_logical
  (E : Collaborators) (w : Width) (this : CheckSpecial)
  (cond : ResultCondition) (v : GPRReg) (operands : list Arg) :
  is64Bit E = true ->
  opcode (m_checkKind this) = BranchAdd w ->
  (m_numCheckArgs this = 4%nat /\ operands = [ResCond cond; Tmp v; Tmp v; Tmp v])
  \/ (m_numCheckArgs this = 3%nat /\ operands = [ResCond cond; Tmp v; Tmp v]) ->
  exists undo,
    undoOperation E this operands = Some undo
    /\ nth_error undo 1 = Some (setCarry (selectScratchGPR E v))
    /\ nth_error undo 2 = Some (lshiftOp w (bits w - 1) (selectScratchGPR E v))
    /\ nth_error undo 3 = Some (urshiftOp w 1 v)
    /\ nth_error undo 4 = Some (orOp w (selectScratchGPR E v) v)
    /\ (forall imm r, ~ In (rshiftOp w imm r) undo)
    /\ forall m, exists m',
         exec (urshiftOp w 1 v) m = Some m'
         /\ regs m' v = wrap w (regs m v) / 2
         /\ 0 <= regs m' v < minSigned w.
Proof.
  intros H64 Hop Hshape.
  exists (carryUndo w (selectScratchGPR E v) v).
  split.
  - unfold undoOperation, allOperandsAliased. rewrite Hop.
    destruct Hshape as [[-> ->] | [-> ->]];
      destruct w; cbn [BranchAdd]; rewrite H64;
      cbn [Nat.eqb at_ nth_error bind]; rewrite !Arg_eqb_refl; reflexivity.
  - repeat (split; [ reflexivity | ]).
    split.
    + intros imm r Hin. destruct w; cbn in Hin;
        repeat (destruct Hin as [Hin | Hin]; [ discriminate | ]); exact Hin.
    + intros m. apply urshift_one_logical.
Qed.

Lemma self_aliased_add_shift_is_logical_witness :
  exists undo,
    undoOperation sampleTarget selfAdd32 [ResCond Overflow; Tmp 2%nat; Tmp 2%nat]
      = Some undo
    /\ nth_error undo 1 = Some (setCarry 0%nat)
    /\ nth_error undo 2 = Some (lshift32 31 0%nat)
    /\ nth_error undo 3 = Some (urshift32 1 2%nat)
    /\ nth_error undo 4 = Some (or32 0%nat 2%nat)
    /\ (forall imm r, ~ In (rshift32 imm r) undo)
    /\ forall m, exists m',
         exec (urshift32 1 2%nat) m = Some m'
         /\ regs m' 2%nat = wrap Width32 (regs m 2%nat) / 2
         /\ 0 <= regs m' 2%nat < minSigned Width32.
Proof.
  apply (self_aliased_add_shift_is_logical sampleTarget Width32 selfAdd32 Overflow
           2%nat [ResCond Overflow; Tmp 2%nat; Tmp 2%nat]).
  - reflexivity.
  - reflexivity.
  - right. split; reflexivity.
Defined.

(** C3, as the design words it, fails: the emitted step is not the
    arithmetic shift [rshift32].  On the corrupted result [2^31] of
    [2^30 + 2^30] (carry clear) the emitted logical shift gives [2^30]
    back, where an arithmetic shift would give [2^31 + 2^30]. *)
Lemma self_aliased_add_shift_not_arithmetic :
  undoOperation sampleTarget selfAdd32 [ResCond Overflow; Tmp 2%nat; Tmp 2%nat]
    = Some [pushToSave 0%nat; setCarry 0%nat; lshift32 31 0%nat;
            urshift32 1 2%nat; or32 0%nat 2%nat; popToRestore 0%nat]
  /\ urshift32 1 2%nat <> rshift32 1 2%nat
  /\ option_map (fun m => regs m 2%nat)
       (run [air (hiddenOf selfAdd32 None [ResCond Overflow; Tmp 2%nat; Tmp 2%nat]);
             pushToSave 0%nat; setCarry 0%nat; lshift32 31 0%nat;
             urshift32 1 2%nat; or32 0%nat 2%nat; popToRestore 0%nat]
            (sampleMachine 0 0 1073741824))
     = Some 1073741824
  /\ option_map (fun m => regs m 2%nat)
       (run [air (hiddenOf selfAdd32 None [ResCond Overflow; Tmp 2%nat; Tmp 2%nat]);
             pushToSave 0%nat; setCarry 0%nat; lshift32 31 0%nat;
             rshift32 1 2%nat; or32 0%nat 2%nat; popToRestore 0%nat]
            (sampleMachine 0 0 1073741824))
     = Some 3221225472.
Proof.
  split; [ reflexivity | ].
  split; [ discriminate | ].
  split; vm_compute; reflexivity.
Qed.

(** ** A four-operand add whose destination is a third register *)

(** C10. For a four-operand checked add whose destination [args[3]] differs
    from both sources, the late path emits no undo code: it links the
    failure edge and runs the recovery generator, with nothing in between. *)
Theorem no_undo_when_destination_distinct
  (E : Collaborators) (w : Width) (this : CheckSpecial) (a0 a1 a2 a3 : Arg) :
  is64Bit E = true ->
  opcode (m_checkKind this) = BranchAdd w ->
  m_numCheckArgs this = 4%nat ->
  a1 <> a3 ->
  a2 <> a3 ->
  undoOperation E this [a0; a1; a2; a3] = Some []
  /\ forall fail value reps jit,
       latePathFunction E
         {| lp_fail := fail; lp_this := this; lp_args := [a0; a1; a2; a3];
            lp_value := value; lp_reps := reps |} jit
       = Some (jit ++ [link fail; generator (m_generator value) value reps]).
Proof.
  intros H64 Hop Hn H13 H23.
  assert (Hundo : undoOperation E this [a0; a1; a2; a3] = Some []).
  { unfold undoOperation, allOperandsAliased. rewrite Hop, Hn.
    destruct w; cbn [BranchAdd]; rewrite H64; cbn [Nat.eqb at_ nth_error bind];
      rewrite (Arg_eqb_neq _ _ H13), (Arg_eqb_neq _ _ H23);
      destruct (Arg_eqb a1 a2); reflexivity. }
  split; [ exact Hundo | ].
  intros fail value reps jit. unfold latePathFunction. cbn [lp_this lp_args lp_fail lp_value lp_reps].
  rewrite Hundo. cbn [bind map]. rewrite app_nil_r, <- app_assoc. reflexivity.
Qed.

Lemma no_undo_when_destination_distinct_witness :
  undoOperation sampleTarget (sampleSpecial BranchAdd64 4)
      [ResCond Overflow; Tmp 0%nat; Tmp 1%nat; Tmp 2%nat] = Some []
  /\ forall fail value reps jit,
       latePathFunction sampleTarget
         {| lp_fail := fail; lp_this := sampleSpecial BranchAdd64 4;
            lp_args := [ResCond Overflow; Tmp 0%nat; Tmp 1%nat; Tmp 2%nat];
            lp_value := value; lp_reps := reps |} jit
       = Some (jit ++ [link fail; generator (m_generator value) value reps]).
Proof.
  apply (no_undo_when_destination_distinct sampleTarget Width64
           (sampleSpecial BranchAdd64 4)
           (ResCond Overflow) (Tmp 0%nat) (Tmp 1%nat) (Tmp 2%nat)).
  - reflexivity.
  - reflexivity.
  - reflexivity.
  - discriminate.
  - discriminate.
Defined.

(** ** The hidden branch *)

Lemma appendUsingFunctor_ext {A : Type} (n : nat) (f g : nat -> option A) :
  (forall i, f i = g i) -> appendUsingFunctor n f = appendUsingFunctor n g.
Proof.
  intros Hfg. induction n as [ | n IH]; cbn; [ reflexivity | ].
  now rewrite IH, Hfg.
Qed.

Lemma appendUsingFunctor_length {A : Type} (n : nat) (f : nat -> option A) (l : list A) :
  appendUsingFunctor n f = Some l -> length l = n.
Proof.
  revert l. induction n as [ | n IH]; cbn; intros l H.
  - inversion H. reflexivity.
  - destruct (appendUsingFunctor n f) as [front | ]; cbn in H; [ | discriminate ].
    destruct (f n) as [x | ]; cbn in H; [ | discriminate ].
    inversion H. rewrite length_app, (IH front eq_refl). cbn. lia.
Qed.

(** Building the hidden branch reads [inst.args[1 .. numCheckArgs]]. *)
Lemma appendUsingFunctor_in_range {A : Type} (n : nat) (v : list A) (l : list A) :
  appendUsingFunctor n (fun i => at_ v (i + 1)) = Some l ->
  n = 0%nat \/ (n + 1 <= length v)%nat.
Proof.
  destruct n as [ | n]; [ now left | ].
  cbn. intros H. right.
  destruct (appendUsingFunctor n _) as [front | ]; cbn in H; [ | discriminate ].
  destruct (at_ v (n + 1)) as [x | ] eqn:Hx; cbn in H; [ | discriminate ].
  assert (Hlt : (n + 1 < length v)%nat).
  { apply nth_error_Some. unfold at_ in Hx. congruence. }
  lia.
Qed.

Lemma appendUsingFunctor_total {A : Type} (n : nat) (v : list A) :
  (n + 1 <= length v)%nat ->
  exists l, appendUsingFunctor n (fun i => at_ v (i + 1)) = Some l.
Proof.
  induction n as [ | n IH]; intros Hn; cbn.
  - now exists [].
  - destruct IH as [front Hfront]; [ lia | ].
    rewrite Hfront. cbn.
    destruct (at_ v (n + 1)) as [x | ] eqn:Hx.
    + cbn. now eexists.
    + unfold at_ in Hx. apply nth_error_None in Hx. lia.
Qed.

Lemma hiddenBranch_inv (this : CheckSpecial) (inst hidden : Inst) :
  hiddenBranch this inst = Some hidden ->
  inst_kind hidden = m_checkKind this
  /\ origin hidden = origin inst
  /\ appendUsingFunctor (m_numCheckArgs this) (fun i => at_ (args inst) (i + 1))
     = Some (args hidden)
  /\ isTerminal (opcode (m_checkKind this)) = true.
Proof.
  unfold hiddenBranch. intros H.
  destruct (appendUsingFunctor _ _) as [hiddenArgs | ]; cbn in H; [ | discriminate ].
  destruct (isTerminal (opcode (m_checkKind this))) eqn:Hterm; cbn in H; [ | discriminate ].
  inversion H. subst hidden. cbn. auto.
Qed.

(** ** Validity *)

Lemma numB3Args_Kind_values (k : B3Opcode) (n : nat) :
  numB3Args_Kind k = Some n ->
  (k = Check /\ n = 1%nat)
  \/ ((k = CheckAdd \/ k = CheckSub \/ k = CheckMul) /\ n = 2%nat).
Proof.
  destruct k; cbn; intros H; inversion H; auto.
Qed.

(** The unsigned comparison of [isValid] agrees with the comparison of
    the counts as numbers, as long as the value has at least the operands
    its kind consumes and the slots the hidden branch reads exist. *)
Lemma operand_count_wraps (k size n nc nb : Z) :
  k = 32 \/ k = 64 ->
  0 <= size < 2 ^ 32 -> 0 <= n < 2 ^ 32 -> 0 <= nc < 2 ^ 32 ->
  1 <= nb <= nc ->
  n = 0 \/ n + 1 <= size ->
  ((size - n - 1) mod 2 ^ k =? (nc - nb) mod 2 ^ 32) = true
  <-> size = 1 + n + (nc - nb).
Proof.
  intros Hk Hsize Hn Hnc Hnb Hin.
  rewrite Z.eqb_eq.
  rewrite (Z.mod_small (nc - nb)) by lia.
  assert (H32 : 2 ^ 32 = 4294967296) by reflexivity.
  assert (H64 : 2 ^ 64 = 18446744073709551616) by reflexivity.
  destruct Hk as [-> | ->]; rewrite ?H32, ?H64 in *.
  - destruct (Z_lt_le_dec (size - n - 1) 0) as [Hneg | Hpos].
    + assert (Hm : (size - n - 1) mod 4294967296 = size - n - 1 + 4294967296).
      { symmetry. apply Z.mod_unique with (q := -1); lia. }
      rewrite Hm. lia.
    + rewrite Z.mod_small by lia. lia.
  - destruct (Z_lt_le_dec (size - n - 1) 0) as [Hneg | Hpos].
    + assert (Hm : (size - n - 1) mod 18446744073709551616
                   = size - n - 1 + 18446744073709551616).
      { symmetry. apply Z.mod_unique with (q := -1); lia. }
      rewrite Hm. lia.
    + rewrite Z.mod_small by lia. lia.
Qed.

(** C7. For an instruction whose origin is a check ([numB3Args] is 2 for
    [CheckAdd], [CheckSub] and [CheckMul], 1 for [Check]), [isValid]
    returns true exactly when the hidden branch built from it is a valid
    form, the stackmap policy accepts the remaining operands, and
    [inst.args.size() == 1 + numCheckArgs + (numChildren - numB3Args)].
    The counts are the code's unsigned quantities, and the origin has at
    least the children its kind consumes. *)
Theorem isValid_iff
  (E : Collaborators) (this : CheckSpecial) (inst : Inst) (value : Value) (nb : nat) :
  origin inst = Some value ->
  numB3Args_Kind (kind value) = Some nb ->
  (nb <= numChildren value)%nat ->
  Z.of_nat (numChildren value) < 2 ^ 32 ->
  Z.of_nat (m_numCheckArgs this) + 1 < 2 ^ 32 ->
  Z.of_nat (length (args inst)) < 2 ^ 32 ->
  ((kind value = Check /\ nb = 1%nat)
   \/ ((kind value = CheckAdd \/ kind value = CheckSub \/ kind value = CheckMul)
       /\ nb = 2%nat))
  /\ (isValid E this inst = Some true
      <-> (exists hidden,
             hiddenBranch this inst = Some hidden /\ isValidForm E hidden = true)
          /\ isValidImpl E nb (m_numCheckArgs this + 1) inst = true
          /\ Z.of_nat (length (args inst))
             = 1 + Z.of_nat (m_numCheckArgs this)
               + (Z.of_nat (numChildren value) - Z.of_nat nb)).
Proof.
  intros Horigin Hnb Hchildren Hnc Hn Hsize.
  pose proof (numB3Args_Kind_values _ _ Hnb) as Hvalues.
  split; [ exact Hvalues | ].
  assert (Hnum : numB3Args inst = Some nb).
  { unfold numB3Args, numB3Args_Value. rewrite Horigin. exact Hnb. }
  assert (Hnb1 : (1 <= nb)%nat) by (destruct Hvalues as [[_ ->] | [_ ->]]; lia).
  assert (Hbits : sizeBits E = 32 \/ sizeBits E = 64)
    by (unfold sizeBits; destruct (is64Bit E); auto).
  unfold isValid. rewrite Hnum, Horigin.
  destruct (hiddenBranch this inst) as [hidden | ] eqn:Hhidden; cbn [bind].
  - assert (Hin : Z.of_nat (m_numCheckArgs this) = 0
                  \/ Z.of_nat (m_numCheckArgs this) + 1 <= Z.of_nat (length (args inst))).
    { destruct (hiddenBranch_inv _ _ _ Hhidden) as (_ & _ & Happ & _).
      destruct (appendUsingFunctor_in_range _ _ _ Happ) as [H0 | Hle]; lia. }
    pose proof (operand_count_wraps (sizeBits E)
                  (Z.of_nat (length (args inst))) (Z.of_nat (m_numCheckArgs this))
                  (Z.of_nat (numChildren value)) (Z.of_nat nb)
                  Hbits ltac:(lia) ltac:(lia) ltac:(lia) ltac:(lia) Hin) as Hcount.
    destruct (isValidForm E hidden) eqn:Hform.
    + destruct (isValidImpl E nb (m_numCheckArgs this + 1) inst) eqn:Himpl.
      * split.
        -- intros H. inversion H as [Heq]. rewrite Heq.
           split; [ now exists hidden | ]. split; [ reflexivity | ].
           now apply Hcount.
        -- intros (_ & _ & Heq). f_equal. now apply Hcount.
      * split; [ discriminate | ]. intros (_ & Habs & _). discriminate.
    + split; [ discriminate | ].
      intros ((hidden' & Hsome & Hvalid) & _). congruence.
  - split; [ discriminate | ].
    intros ((hidden' & Hsome & _) & _). discriminate.
Qed.

Lemma isValid_iff_witness :
  ((kind checkAddValue = Check /\ 2%nat = 1%nat)
   \/ ((kind checkAddValue = CheckAdd \/ kind checkAddValue = CheckSub
        \/ kind checkAddValue = CheckMul) /\ 2%nat = 2%nat))
  /\ (isValid sampleTarget selfAdd32 selfAddInst = Some true
      <-> (exists hidden,
             hiddenBranch selfAdd32 selfAddInst = Some hidden
             /\ isValidForm sampleTarget hidden = true)
          /\ isValidImpl sampleTarget 2 (m_numCheckArgs selfAdd32 + 1) selfAddInst = true
          /\ Z.of_nat (length (args selfAddInst))
             = 1 + Z.of_nat (m_numCheckArgs selfAdd32)
               + (Z.of_nat (numChildren checkAddValue) - Z.of_nat 2)).
Proof.
  apply (isValid_iff sampleTarget selfAdd32 selfAddInst checkAddValue 2).
  - reflexivity.
  - reflexivity.
  - cbn; lia.
  - cbn; lia.
  - cbn; lia.
  - cbn; lia.
Defined.

(** ** The code generator *)

Lemma generate_inv (E : Collaborators) (this : CheckSpecial) (inst : Inst) (jit : Jit)
  (context : GenerationContext) (r : Jump * Jit * GenerationContext) :
  generate E this inst jit context = Some r ->
  exists hidden value nb,
    hiddenBranch this inst = Some hidden
    /\ producesJump (opcode (m_checkKind this)) = true
    /\ origin inst = Some value
    /\ numB3Args_Kind (kind value) = Some nb
    /\ r = ({| m_label := None |},
            jit ++ [code (air hidden)],
            {| latePaths := latePaths context
                 ++ [taskOf E this inst hidden {| m_label := Some (length jit) |}
                       value context nb] |}).
Proof.
  unfold generate. intros H.
  destruct (hiddenBranch this inst) as [hidden | ] eqn:Hhidden; cbn [bind] in H;
    [ | discriminate ].
  destruct (hiddenBranch_inv _ _ _ Hhidden) as (Hkind & _ & Happ & _).
  unfold Inst_generate in H. rewrite Hkind in H.
  destruct (producesJump (opcode (m_checkKind this))) eqn:Hjump;
    cbn [isSet m_label ASSERT bind] in H; [ | discriminate ].
  unfold numB3Args, numB3Args_Value in H.
  destruct (origin inst) as [originValue | ] eqn:Horigin; cbn [bind] in H;
    [ | discriminate ].
  destruct (as_StackmapValue originValue) as [value | ] eqn:Hstack; cbn [bind] in H;
    [ | discriminate ].
  assert (value = originValue) as ->.
  { unfold as_StackmapValue in Hstack.
    destruct (kind originValue); inversion Hstack; reflexivity. }
  destruct (numB3Args_Kind (kind originValue)) as [nb | ] eqn:Hnb; cbn [bind] in H;
    [ | discriminate ].
  rewrite (appendUsingFunctor_ext _ _ (fun i => at_ (args inst) (i + 1))) in H
    by (intros i; now rewrite Nat.add_comm).
  rewrite Happ in H. cbn [bind] in H.
  inversion H. exists hidden, originValue, nb.
  repeat split; assumption.
Qed.

Lemma generate_total (E : Collaborators) (this : CheckSpecial) (inst hidden : Inst)
  (jit : Jit) (context : GenerationContext) (value : Value) (nb : nat) :
  hiddenBranch this inst = Some hidden ->
  producesJump (opcode (m_checkKind this)) = true ->
  origin inst = Some value ->
  numB3Args_Kind (kind value) = Some nb ->
  generate E this inst jit context
  = Some ({| m_label := None |},
          jit ++ [code (air hidden)],
          {| latePaths := latePaths context
               ++ [taskOf E this inst hidden {| m_label := Some (length jit) |}
                     value context nb] |}).
Proof.
  intros Hhidden Hjump Horigin Hnb.
  destruct (hiddenBranch_inv _ _ _ Hhidden) as (Hkind & _ & Happ & _).
  unfold generate. rewrite Hhidden. cbn [bind].
  unfold Inst_generate. rewrite Hkind, Hjump. cbn [isSet m_label ASSERT bind].
  unfold numB3Args, numB3Args_Value, as_StackmapValue. rewrite Horigin. cbn [bind].
  rewrite Hnb.
  assert (Hstack : match kind value with
                   | CheckAdd | CheckSub | CheckMul | Check | Patchpoint => Some value
                   | _ => None
                   end = Some value)
    by (destruct (kind value); try discriminate; reflexivity).
  rewrite Hstack. cbn [bind].
  rewrite (appendUsingFunctor_ext _ _ (fun i => at_ (args inst) (i + 1)))
    by (intros i; now rewrite Nat.add_comm).
  rewrite Happ. reflexivity.
Qed.

(** The hidden branch is the special's kind applied to the saved operands. *)
Lemma hiddenBranch_hiddenOf (this : CheckSpecial) (inst hidden : Inst) :
  hiddenBranch this inst = Some hidden ->
  hidden = hiddenOf this (origin inst) (args hidden).
Proof.
  intros H. destruct (hiddenBranch_inv _ _ _ H) as (Hkind & Horigin & _ & _).
  destruct hidden as [k o a]. cbn in *. unfold hiddenOf. now subst.
Qed.

(** What a successful [generate] leaves behind: the hidden branch in the
    buffer and, queued, a late path that will emit the link of the failure
    edge, the undo of the operation on the saved operands, and the
    recovery generator. *)
Lemma generate_then_latePath (E : Collaborators) (this : CheckSpecial) (inst : Inst)
  (jit : Jit) (context : GenerationContext) (r : Jump * Jit * GenerationContext) :
  generate E this inst jit context = Some r ->
  exists hidden task,
    hiddenBranch this inst = Some hidden
    /\ snd (fst r) = jit ++ [code (air hidden)]
    /\ latePaths (snd r) = latePaths context ++ [task]
    /\ lp_fail task = {| m_label := Some (length jit) |}
    /\ forall undo later,
         undoOperation E this (args hidden) = Some undo ->
         latePathFunction E task later
         = Some (later ++ link (lp_fail task) :: map code undo
                 ++ [generator (m_generator (lp_value task)) (lp_value task)
                       (lp_reps task)]).
Proof.
  intros H.
  destruct (generate_inv _ _ _ _ _ _ H) as (hidden & value & nb & Hhidden & _ & _ & _ & ->).
  exists hidden,
    (taskOf E this inst hidden {| m_label := Some (length jit) |} value context nb).
  repeat split; try assumption; try reflexivity.
  intros undo later Hundo. unfold latePathFunction, taskOf.
  cbn [lp_this lp_args lp_fail lp_value lp_reps]. rewrite Hundo. cbn [bind].
  now rewrite <- !app_assoc.
Qed.

(** If the hidden branch hands back no jump, the assertion fires. *)
Lemma generate_asserts_failure_edge (E : Collaborators) (this : CheckSpecial)
  (inst hidden : Inst) (jit : Jit) (context : GenerationContext) :
  hiddenBranch this inst = Some hidden ->
  isSet (fst (Inst_generate hidden jit)) = false ->
  generate E this inst jit context = None.
Proof.
  intros Hhidden Hunset. unfold generate. rewrite Hhidden. cbn [bind].
  destruct (Inst_generate hidden jit) as [fail jit1]. cbn [fst] in Hunset.
  now rewrite Hunset.
Qed.

Lemma isValid_true_inv (E : Collaborators) (this : CheckSpecial) (inst : Inst) :
  isValid E this inst = Some true ->
  exists hidden value nb,
    hiddenBranch this inst = Some hidden
    /\ isValidForm E hidden = true
    /\ origin inst = Some value
    /\ numB3Args_Kind (kind value) = Some nb.
Proof.
  unfold isValid. intros H.
  destruct (hiddenBranch this inst) as [hidden | ] eqn:Hhidden; cbn [bind] in H;
    [ | discriminate ].
  destruct (isValidForm E hidden) eqn:Hform; [ | discriminate ].
  unfold numB3Args, numB3Args_Value in H.
  destruct (origin inst) as [value | ] eqn:Horigin; cbn [bind] in H; [ | discriminate ].
  destruct (numB3Args_Kind (kind value)) as [nb | ] eqn:Hnb; cbn [bind] in H;
    [ | discriminate ].
  exists hidden, value, nb. repeat split; assumption.
Qed.

(** C6. For a well-formed checked instruction, [generate] emits the hidden
    branch, which hands back a set failure-edge jump, and itself returns
    the unset jump [Jump()]; were the hidden branch to hand back no set
    jump, the assertion would abort generation. *)
Theorem generate_returns_unset_jump
  (E : Collaborators) (this : CheckSpecial) (inst : Inst) (jit : Jit)
  (context : GenerationContext) :
  isValid E this inst = Some true ->
  exists hidden,
    hiddenBranch this inst = Some hidden
    /\ (producesJump (opcode (m_checkKind this)) = true ->
        isSet (fst (Inst_generate hidden jit)) = true)
    /\ (isSet (fst (Inst_generate hidden jit)) = true ->
        exists task,
          generate E this inst jit context
          = Some ({| m_label := None |},
                  snd (Inst_generate hidden jit),
                  {| latePaths := latePaths context ++ [task] |})
          /\ lp_fail task = fst (Inst_generate hidden jit)
          /\ isSet {| m_label := None |} = false)
    /\ (isSet (fst (Inst_generate hidden jit)) = false ->
        generate E this inst jit context = None).
Proof.
  intros Hvalid.
  destruct (isValid_true_inv _ _ _ Hvalid) as (hidden & value & nb & Hhidden & _ & Horigin & Hnb).
  destruct (hiddenBranch_inv _ _ _ Hhidden) as (Hkind & _ & _ & _).
  exists hidden. split; [ exact Hhidden | ].
  assert (Hset : isSet (fst (Inst_generate hidden jit))
                 = producesJump (opcode (m_checkKind this))).
  { unfold Inst_generate. rewrite Hkind. cbn [fst].
    now destruct (producesJump (opcode (m_checkKind this))). }
  split; [ | split ].
  - intros Hjump. now rewrite Hset.
  - intros Hjump. rewrite Hset in Hjump.
    exists (taskOf E this inst hidden {| m_label := Some (length jit) |} value context nb).
    split; [ | split ].
    + rewrite (generate_total E this inst hidden jit context value nb) by assumption.
      reflexivity.
    + unfold Inst_generate. rewrite Hkind, Hjump. reflexivity.
    + reflexivity.
  - intros Hunset. now apply (generate_asserts_failure_edge E this inst hidden).
Qed.

Lemma generate_returns_unset_jump_witness :
  exists hidden,
    hiddenBranch selfAdd32 selfAddInst = Some hidden
    /\ (producesJump (opcode (m_checkKind selfAdd32)) = true ->
        isSet (fst (Inst_generate hidden [])) = true)
    /\ (isSet (fst (Inst_generate hidden [])) = true ->
        exists task,
          generate sampleTarget selfAdd32 selfAddInst [] {| latePaths := [] |}
          = Some ({| m_label := None |},
                  snd (Inst_generate hidden []),
                  {| latePaths := latePaths {| latePaths := [] |} ++ [task] |})
          /\ lp_fail task = fst (Inst_generate hidden [])
          /\ isSet {| m_label := None |} = false)
    /\ (isSet (fst (Inst_generate hidden [])) = false ->
        generate sampleTarget selfAdd32 selfAddInst [] {| latePaths := [] |} = None).
Proof.
  apply (generate_returns_unset_jump sampleTarget selfAdd32 selfAddInst []
           {| latePaths := [] |}).
  reflexivity.
Defined.

(** ** Late paths trail the hot code *)

Lemma latePathFunction_stub (E : Collaborators) (task : LatePath) (jit : Jit) :
  latePathFunction E task jit = option_map (app jit) (stubOf E task).
Proof.
  unfold latePathFunction, stubOf.
  destruct (undoOperation E (lp_this task) (lp_args task)) as [undo | ]; cbn;
    [ | reflexivity ].
  now rewrite <- !app_assoc.
Qed.

Lemma runLatePaths_stubs (E : Collaborators) (tasks : list LatePath) :
  forall jit out,
    runLatePaths E tasks jit = Some out ->
    exists stubs,
      Forall2 (fun task stub => stubOf E task = Some stub) tasks stubs
      /\ out = jit ++ concat stubs.
Proof.
  induction tasks as [ | task rest IH]; intros jit out H; cbn in H.
  - inversion H. exists []. split; [ constructor | ]. cbn. now rewrite app_nil_r.
  - rewrite latePathFunction_stub in H.
    destruct (stubOf E task) as [stub | ] eqn:Hstub; cbn in H; [ | discriminate ].
    destruct (IH _ _ H) as (stubs & Hall & Hout).
    exists (stub :: stubs). split; [ now constructor | ].
    cbn. now rewrite Hout, app_assoc.
Qed.

Lemma queuedFor_app (buffer more : Jit) (p : CheckSpecial * Inst) (task : LatePath) :
  queuedFor buffer p task -> queuedFor (buffer ++ more) p task.
Proof.
  intros (hidden & k & Hhidden & Hthis & Hargs & Hfail & Hnth).
  exists hidden, k. repeat split; try assumption.
  rewrite nth_error_app1; [ assumption | ].
  apply nth_error_Some. congruence.
Qed.

Lemma generateHot_inv (E : Collaborators) (unit : list UnitInst) :
  forall jit context jit' context',
    generateHot E unit jit context = Some (jit', context') ->
    exists hot tasks,
      jit' = jit ++ hot
      /\ latePaths context' = latePaths context ++ tasks
      /\ forallb isHot hot = true
      /\ Forall2 (queuedFor jit') (patches unit) tasks.
Proof.
  induction unit as [ | [special inst | inst] rest IH];
    intros jit context jit' context' H; cbn [generateHot] in H.
  - inversion H. subst. exists [], []. rewrite !app_nil_r.
    repeat split; constructor.
  - destruct (generate E special inst jit context) as [r | ] eqn:Hgen; cbn [bind] in H;
      [ | discriminate ].
    destruct (generate_inv _ _ _ _ _ _ Hgen)
      as (hidden & value & nb & Hhidden & _ & _ & _ & ->).
    cbn [fst snd] in H.
    destruct (IH _ _ _ _ H) as (hot & tasks & Hjit & Hlate & Hhot & Hall).
    cbn [latePaths] in Hlate.
    exists (code (air hidden) :: hot),
           (taskOf E special inst hidden {| m_label := Some (length jit) |}
              value context nb :: tasks).
    rewrite <- app_assoc in Hjit, Hlate. cbn [app] in Hjit, Hlate.
    repeat split; try assumption.
    cbn [patches]. constructor; [ | exact Hall ].
    exists hidden, (length jit). cbn [fst snd taskOf lp_this lp_args lp_fail].
    repeat split; try assumption.
    rewrite Hjit, nth_error_app2, Nat.sub_diag by lia. reflexivity.
  - destruct (IH _ _ _ _ H) as (hot & tasks & Hjit & Hlate & Hhot & Hall).
    cbn [Inst_generate snd] in Hjit.
    exists (code (air inst) :: hot), tasks.
    rewrite <- app_assoc in Hjit. cbn [app] in Hjit.
    repeat split; assumption.
Qed.

Lemma runLatePaths_total (E : Collaborators) (tasks : list LatePath) :
  Forall (fun task => stubOf E task <> None) tasks ->
  forall jit, exists out, runLatePaths E tasks jit = Some out.
Proof.
  induction 1 as [ | task rest Hstub _ IH]; intros jit; cbn [runLatePaths].
  - now exists jit.
  - rewrite latePathFunction_stub.
    destruct (stubOf E task) as [stub | ]; [ | contradiction ].
    cbn [option_map bind]. apply IH.
Qed.

Lemma generateHot_total (E : Collaborators) (unit : list UnitInst) :
  Forall (generable E) unit ->
  forall jit context,
    Forall (fun task => stubOf E task <> None) (latePaths context) ->
    exists jit' context',
      generateHot E unit jit context = Some (jit', context')
      /\ Forall (fun task => stubOf E task <> None) (latePaths context').
Proof.
  induction 1 as [ | u rest Hu _ IH]; intros jit context Hctx; cbn [generateHot].
  - now exists jit, context.
  - destruct u as [this inst | inst].
    + destruct Hu as (hidden & value & nb & Hhidden & Hjump & Horigin & Hnb & Hundo).
      rewrite (generate_total E this inst hidden jit context value nb) by assumption.
      cbn [bind fst snd]. apply IH. cbn [latePaths].
      apply Forall_app. split; [ exact Hctx | ].
      constructor; [ | constructor ].
      unfold stubOf, taskOf. cbn [lp_this lp_args].
      destruct (undoOperation E this (args hidden)); [ discriminate | contradiction ].
    + apply IH. exact Hctx.
Qed.

(** C9. Each call of [generate] appends exactly one late path to
    [context.latePaths].  Generating a unit emits the code of every
    instruction first and then runs the late paths in the order they were
    queued: the output is the hot code followed by one recovery stub per
    checked instruction, in instruction order, each stub starting with the
    link of its failure edge to a hidden branch in the hot code. *)
Theorem late_paths_trail_hot_code (E : Collaborators) :
  (forall this inst jit context r,
      generate E this inst jit context = Some r ->
      exists task,
        latePaths (snd r) = latePaths context ++ [task]
        /\ length (latePaths (snd r)) = S (length (latePaths context)))
  /\ (forall unit out,
        generateUnit E unit = Some out ->
        exists hot tasks stubs,
          generateHot E unit [] {| latePaths := [] |}
            = Some (hot, {| latePaths := tasks |})
          /\ forallb isHot hot = true
          /\ Forall2 (queuedFor hot) (patches unit) tasks
          /\ Forall2 (fun task stub => stubOf E task = Some stub) tasks stubs
          /\ out = hot ++ concat stubs)
  /\ (forall unit,
        Forall (generable E) unit -> exists out, generateUnit E unit = Some out).
Proof.
  split; [ | split ].
  - intros this inst jit context r H.
    destruct (generate_inv _ _ _ _ _ _ H) as (hidden & value & nb & _ & _ & _ & _ & ->).
    eexists. cbn [snd latePaths]. split; [ reflexivity | ].
    rewrite length_app. cbn. lia.
  - intros unit out H. unfold generateUnit in H.
    destruct (generateHot E unit [] {| latePaths := [] |}) as [[hot [tasks]] | ] eqn:Hhot;
      cbn [bind fst snd latePaths] in H; [ | discriminate ].
    destruct (generateHot_inv _ _ _ _ _ _ Hhot) as (hot' & tasks' & Hjit & Hlate & Hishot & Hall).
    cbn [app latePaths] in Hjit, Hlate. subst hot' tasks'.
    destruct (runLatePaths_stubs _ _ _ _ H) as (stubs & Hstubs & Hout).
    exists hot, tasks, stubs. repeat split; assumption.
  - intros unit Hunit. unfold generateUnit.
    destruct (generateHot_total E unit Hunit [] {| latePaths := [] |})
      as (hot & context' & Hhot & Hstubs); [ constructor | ].
    rewrite Hhot. cbn [bind fst snd].
    now apply runLatePaths_total.
Qed.

(** A unit with one fully aliased checked add between two moves: the
    recovery stub follows both moves. *)
Example generateUnit_sample :
  generateUnit sampleTarget
    [ordinary (Inst_of Move [Tmp 1%nat; Tmp 2%nat]);
     patch selfAdd32 selfAddInst;
     ordinary (Inst_of Move [Tmp 2%nat; Tmp 0%nat])]
  = Some [code (air (Inst_of Move [Tmp 1%nat; Tmp 2%nat]));
          code (air {| inst_kind := m_checkKind selfAdd32;
                       origin := Some checkAddValue;
                       args := [ResCond Overflow; Tmp 2%nat; Tmp 2%nat] |});
          code (air (Inst_of Move [Tmp 2%nat; Tmp 0%nat]));
          link {| m_label := Some 1%nat |};
          code (pushToSave 0%nat);
          code (setCarry 0%nat);
          code (lshift32 31 0%nat);
          code (urshift32 1 2%nat);
          code (or32 0%nat 2%nat);
          code (popToRestore 0%nat);
          generator 7 checkAddValue [RepStack 16]].
Proof. reflexivity. Qed.

(** * Further results *)

(** ** The hidden branch, operand by operand *)

Lemma firstn_snoc_nth_error {A : Type} (l : list A) :
  forall n x, nth_error l n = Some x -> firstn (S n) l = firstn n l ++ [x].
Proof.
  induction l as [ | y l IH]; intros [ | n] x H; cbn in H; try discriminate.
  - inversion H. reflexivity.
  - cbn [firstn app]. f_equal. now apply IH.
Qed.

Lemma appendUsingFunctor_firstn {A : Type} (n : nat) (v : list A) :
  (n + 1 <= length v)%nat ->
  appendUsingFunctor n (fun i => at_ v (i + 1)) = Some (firstn n (skipn 1 v)).
Proof.
  induction n as [ | n IH]; intros Hn; cbn [appendUsingFunctor].
  - reflexivity.
  - rewrite IH by lia. cbn [bind].
    destruct v as [ | y t]; [ cbn in Hn; lia | ].
    unfold at_. rewrite Nat.add_1_r. cbn [nth_error skipn].
    destruct (nth_error t n) as [x | ] eqn:Hx.
    + cbn [bind]. now rewrite (firstn_snoc_nth_error t n x Hx).
    + apply nth_error_None in Hx. cbn in Hn. lia.
Qed.

(** X1. [hiddenBranch] keeps the special's kind and the instruction's origin
    and copies exactly the operands [inst.args[1 .. numCheckArgs]]: never
    the special in slot 0, never an operand beyond the check's.  It aborts
    exactly when the kind is not terminal or one of those slots does not
    exist. *)
Theorem hiddenBranch_spec (this : CheckSpecial) (inst : Inst) :
  hiddenBranch this inst
  = if isTerminal (opcode (m_checkKind this))
       && (Nat.eqb (m_numCheckArgs this) 0
           || (m_numCheckArgs this + 1 <=? length (args inst))%nat)
    then Some {| inst_kind := m_checkKind this;
                 origin := origin inst;
                 args := firstn (m_numCheckArgs this) (skipn 1 (args inst)) |}
    else None.
Proof.
  unfold hiddenBranch.
  destruct (Nat.eqb_spec (m_numCheckArgs this) 0) as [H0 | Hn0].
  - rewrite H0. cbn [appendUsingFunctor bind firstn orb inst_kind].
    rewrite andb_true_r.
    now destruct (isTerminal (opcode (m_checkKind this))).
  - cbn [orb].
    destruct (Nat.leb_spec (m_numCheckArgs this + 1) (length (args inst))) as [Hle | Hgt].
    + rewrite appendUsingFunctor_firstn by exact Hle.
      cbn [bind inst_kind]. rewrite andb_true_r.
      now destruct (isTerminal (opcode (m_checkKind this))).
    + rewrite andb_false_r.
      destruct (appendUsingFunctor (m_numCheckArgs this) _) as [l | ] eqn:Happ;
        [ | reflexivity ].
      apply appendUsingFunctor_in_range in Happ. lia.
Qed.

(** X2. A special made from the key of a branch instruction finds that branch
    again in any instruction whose operands are one leading slot, the
    branch's operands, and further operands after them. *)
Theorem hiddenBranch_roundtrip (branch : Inst) (k : Kind) (special : Arg)
  (extra : list Arg) :
  isTerminal (opcode (inst_kind branch)) = true ->
  exists this,
    CheckSpecial_of_Key (Key_of_Inst branch) = Some this
    /\ m_numCheckArgs this = length (args branch)
    /\ m_stackmapRole this = SameAsRep
    /\ hiddenBranch this {| inst_kind := k;
                           origin := origin branch;
                           args := special :: args branch ++ extra |}
       = Some branch.
Proof.
  intros Hterm.
  unfold CheckSpecial_of_Key, CheckSpecial_new, Key_of_Inst, isDefinitelyTerminal.
  cbn [key_kind key_numArgs key_stackmapRole]. rewrite Hterm. cbn [ASSERT bind].
  eexists. split; [ reflexivity | ].
  split; [ reflexivity | ]. split; [ reflexivity | ].
  rewrite hiddenBranch_spec. cbn [m_checkKind m_numCheckArgs args origin skipn].
  rewrite Hterm. cbn [andb].
  assert (Hle : (length (args branch) + 1 <=? length (special :: args branch ++ extra))%nat
                = true).
  { apply Nat.leb_le. cbn [length]. rewrite length_app. lia. }
  rewrite Hle, orb_true_r.
  rewrite firstn_app, Nat.sub_diag, firstn_all. cbn [firstn]. rewrite app_nil_r.
  now destruct branch.
Qed.

Lemma hiddenBranch_roundtrip_witness :
  exists this,
    CheckSpecial_of_Key
      (Key_of_Inst (Inst_of BranchAdd32 [ResCond Overflow; Tmp 0%nat; Tmp 1%nat]))
    = Some this
    /\ m_numCheckArgs this
       = length (args (Inst_of BranchAdd32 [ResCond Overflow; Tmp 0%nat; Tmp 1%nat]))
    /\ m_stackmapRole this = SameAsRep
    /\ hiddenBranch this
         {| inst_kind := {| opcode := Patch; effects := true |};
            origin := origin (Inst_of BranchAdd32 [ResCond Overflow; Tmp 0%nat; Tmp 1%nat]);
            args := Special
                    :: args (Inst_of BranchAdd32 [ResCond Overflow; Tmp 0%nat; Tmp 1%nat])
                    ++ [Stack 16; Stack 24] |}
       = Some (Inst_of BranchAdd32 [ResCond Overflow; Tmp 0%nat; Tmp 1%nat]).
Proof.
  apply (hiddenBranch_roundtrip
           (Inst_of BranchAdd32 [ResCond Overflow; Tmp 0%nat; Tmp 1%nat])
           {| opcode := Patch; effects := true |} Special [Stack 16; Stack 24]).
  reflexivity.
Defined.

(** ** Classifying the operands *)

Lemma defArgWidth_filter (calls : list ArgCall) :
  forall acc,
    defArgWidth calls acc
    = match acc, filter isDefCall calls with
      | _, [] => Some acc
      | None, [c] => Some (Some (call_width c))
      | _, _ => None
      end.
Proof.
  induction calls as [ | c rest IH]; intros acc; cbn [defArgWidth filter].
  - now destruct acc.
  - fold (isDefCall c). destruct (isDefCall c).
    + destruct acc as [w | ]; [ reflexivity | ].
      rewrite IH. now destruct (filter isDefCall rest).
    + apply IH.
Qed.

Lemma shiftCalls_spec (inst : Inst) (calls : list ArgCall) :
  shiftCalls inst calls
  = if forallb (fun c => (1 + call_index c <? length (args inst))%nat) calls
    then Some (map shiftCall calls)
    else None.
Proof.
  induction calls as [ | c rest IH]; cbn [shiftCalls forallb map].
  - reflexivity.
  - unfold at_.
    destruct (Nat.ltb_spec (1 + call_index c) (length (args inst))) as [Hlt | Hge].
    + destruct (nth_error (args inst) (1 + call_index c)) as [a | ] eqn:Ha.
      * cbn [bind andb]. rewrite IH.
        now destruct (forallb _ rest).
      * apply nth_error_None in Ha. lia.
    + destruct (nth_error (args inst) (1 + call_index c)) as [a | ] eqn:Ha.
      * assert (1 + call_index c < length (args inst))%nat
          by (apply nth_error_Some; congruence).
        lia.
      * reflexivity.
Qed.

(** X3. When the hidden branch classifies two of its operands as defined
    (scratch apart), [forEachArg] trips its assertion: "there can only be
    one Def'ed arg". *)
Theorem forEachArg_two_defs_abort
  (E : Collaborators) (this : CheckSpecial) (inst hidden : Inst) :
  hiddenBranch this inst = Some hidden ->
  (2 <= length (filter isDefCall (Inst_forEachArg E hidden)))%nat ->
  forEachArg E this inst = None.
Proof.
  intros Hhidden Htwo. unfold forEachArg. rewrite Hhidden. cbn [bind].
  rewrite defArgWidth_filter.
  destruct (filter isDefCall (Inst_forEachArg E hidden)) as [ | c [ | c' l]];
    cbn in Htwo; try lia.
  reflexivity.
Qed.

Lemma forEachArg_two_defs_abort_witness :
  forEachArg twoDefTarget selfAdd32 addInst = None.
Proof.
  apply (forEachArg_two_defs_abort twoDefTarget selfAdd32 addInst
           {| inst_kind := m_checkKind selfAdd32;
              origin := Some checkAddValue;
              args := [ResCond Overflow; Tmp 0%nat; Tmp 1%nat] |}).
  - reflexivity.
  - cbn. lia.
Defined.

(** X4. The calls [forEachArg] makes, when it returns: first one call per
    operand of the hidden branch, with the branch's own role, bank and
    width, on the slot one further (so on slots [1 ..] of the instruction,
    never on the special in slot 0, and always on a slot that exists);
    then the calls of the stackmap policy, which is told the width of the
    one defined operand, if there is one. *)
Theorem forEachArg_calls
  (E : Collaborators) (this : CheckSpecial) (inst : Inst) (calls : list ArgCall) :
  forEachArg E this inst = Some calls ->
  exists hidden nb,
    hiddenBranch this inst = Some hidden
    /\ numB3Args inst = Some nb
    /\ (length (filter isDefCall (Inst_forEachArg E hidden)) <= 1)%nat
    /\ Forall (fun c => (1 <= call_index c < length (args inst))%nat)
         (map shiftCall (Inst_forEachArg E hidden))
    /\ calls
       = map shiftCall (Inst_forEachArg E hidden)
         ++ forEachArgImpl E nb (m_numCheckArgs this + 1) inst (m_stackmapRole this)
              (firstRecoverableIndex this)
              (option_map call_width
                 (hd_error (filter isDefCall (Inst_forEachArg E hidden)))).
Proof.
  unfold forEachArg. intros H.
  destruct (hiddenBranch this inst) as [hidden | ] eqn:Hhidden; cbn [bind] in H;
    [ | discriminate ].
  rewrite defArgWidth_filter, shiftCalls_spec in H.
  destruct (forallb _ (Inst_forEachArg E hidden)) eqn:Hrange.
  - destruct (numB3Args inst) as [nb | ] eqn:Hnb.
    + exists hidden, nb.
      destruct (filter isDefCall (Inst_forEachArg E hidden)) as [ | c [ | c' l]] eqn:Hdefs;
        cbn [bind] in H; try discriminate;
        (split; [ reflexivity | ]; split; [ reflexivity | ];
         split; [ cbn; lia | ];
         split;
         [ apply Forall_forall; intros c0 Hin; apply in_map_iff in Hin;
           destruct Hin as (c1 & <- & Hin1);
           rewrite forallb_forall in Hrange; specialize (Hrange c1 Hin1);
           apply Nat.ltb_lt in Hrange; cbn [shiftCall call_index]; lia
         | inversion H; reflexivity ]).
    + destruct (filter isDefCall (Inst_forEachArg E hidden)) as [ | c [ | c' l]];
        cbn [bind] in H; discriminate.
  - destruct (filter isDefCall (Inst_forEachArg E hidden)) as [ | c [ | c' l]];
      cbn [bind] in H; discriminate.
Qed.

Lemma forEachArg_calls_witness :
  exists hidden nb,
    hiddenBranch selfAdd32 addInst = Some hidden
    /\ numB3Args addInst = Some nb
    /\ (length (filter isDefCall (Inst_forEachArg aliasingTarget hidden)) <= 1)%nat
    /\ Forall (fun c => (1 <= call_index c < length (args addInst))%nat)
         (map shiftCall (Inst_forEachArg aliasingTarget hidden))
    /\ [mkArgCall 1 Use GP Width32; mkArgCall 2 Use GP Width32;
        mkArgCall 3 UseDef GP Width32; mkArgCall 4 LateColdUse GP Width64]
       = map shiftCall (Inst_forEachArg aliasingTarget hidden)
         ++ forEachArgImpl aliasingTarget nb (m_numCheckArgs selfAdd32 + 1) addInst
              (m_stackmapRole selfAdd32) (firstRecoverableIndex selfAdd32)
              (option_map call_width
                 (hd_error (filter isDefCall (Inst_forEachArg aliasingTarget hidden)))).
Proof.
  apply (forEachArg_calls aliasingTarget selfAdd32 addInst
           [mkArgCall 1 Use GP Width32; mkArgCall 2 Use GP Width32;
            mkArgCall 3 UseDef GP Width32; mkArgCall 4 LateColdUse GP Width64]).
  reflexivity.
Defined.

(** ** Which operands are recoverable *)

(** C8. [forEachArg] hands [forEachArgImpl] a first recoverable index
    along with the hidden branch's calls, and through it operand 1 is
    marked recoverable exactly when the hidden branch's opcode is
    [BranchAdd32] or [BranchAdd64]; for every other opcode, the subtracts,
    negates and plain checks among them, no index is handed over and no
    operand is marked recoverable. *)
Theorem forEachArg_marks_recoverable_iff_add
  (E : Collaborators) (this : CheckSpecial) (inst hidden : Inst) (nb : nat) :
  hiddenBranch this inst = Some hidden ->
  numB3Args inst = Some nb ->
  (length (filter isDefCall (Inst_forEachArg E hidden)) <= 1)%nat ->
  Forall (fun c => (1 + call_index c < length (args inst))%nat)
    (Inst_forEachArg E hidden) ->
  exists first,
    forEachArg E this inst
    = Some (map shiftCall (Inst_forEachArg E hidden)
            ++ forEachArgImpl E nb (m_numCheckArgs this + 1) inst (m_stackmapRole this)
                 first
                 (option_map call_width
                    (hd_error (filter isDefCall (Inst_forEachArg E hidden)))))
    /\ (first = Some 1%nat
        <-> opcode (m_checkKind this) = BranchAdd32
            \/ opcode (m_checkKind this) = BranchAdd64)
    /\ (first = None
        <-> opcode (m_checkKind this) <> BranchAdd32
            /\ opcode (m_checkKind this) <> BranchAdd64)
    /\ (forall index,
          markedRecoverable first index = true
          <-> index = 1%nat
              /\ (opcode (m_checkKind this) = BranchAdd32
                  \/ opcode (m_checkKind this) = BranchAdd64)).
Proof.
  intros Hhidden Hnb Hdefs Hrange.
  exists (firstRecoverableIndex this).
  split.
  - unfold forEachArg. rewrite Hhidden. cbn [bind].
    rewrite defArgWidth_filter, shiftCalls_spec.
    assert (Hall : forallb (fun c => (1 + call_index c <? length (args inst))%nat)
                     (Inst_forEachArg E hidden) = true).
    { apply forallb_forall. intros c Hc. apply Nat.ltb_lt.
      rewrite Forall_forall in Hrange. now apply Hrange. }
    rewrite Hall, Hnb.
    destruct (filter isDefCall (Inst_forEachArg E hidden)) as [ | c [ | c' l]];
      cbn in Hdefs; try lia; reflexivity.
  - unfold firstRecoverableIndex, markedRecoverable.
    destruct (opcode (m_checkKind this)); cbn [Opcode_eqb orb];
      (split; [ | split ]);
      try (split;
           [ intros H; first [ discriminate | auto ]
           | intros [H | H]; first [ discriminate | reflexivity ] ]);
      try (split;
           [ intros H; first [ discriminate | split; discriminate ]
           | intros [H1 H2]; first [ reflexivity | congruence ] ]);
      intros index;
      (split;
       [ intros H; first [ discriminate | apply Nat.eqb_eq in H; auto ]
       | intros [H1 [H2 | H2]];
         first [ discriminate | subst index; reflexivity ] ]).
Qed.

Lemma forEachArg_marks_recoverable_iff_add_witness :
  exists first,
    forEachArg probeTarget selfAdd32 addInst
    = Some (map shiftCall
              (Inst_forEachArg probeTarget
                 {| inst_kind := m_checkKind selfAdd32;
                    origin := Some checkAddValue;
                    args := [ResCond Overflow; Tmp 0%nat; Tmp 1%nat] |})
            ++ forEachArgImpl probeTarget 2 (m_numCheckArgs selfAdd32 + 1) addInst
                 (m_stackmapRole selfAdd32) first
                 (option_map call_width
                    (hd_error
                       (filter isDefCall
                          (Inst_forEachArg probeTarget
                             {| inst_kind := m_checkKind selfAdd32;
                                origin := Some checkAddValue;
                                args := [ResCond Overflow; Tmp 0%nat; Tmp 1%nat] |})))))
    /\ (first = Some 1%nat
        <-> opcode (m_checkKind selfAdd32) = BranchAdd32
            \/ opcode (m_checkKind selfAdd32) = BranchAdd64)
    /\ (first = None
        <-> opcode (m_checkKind selfAdd32) <> BranchAdd32
            /\ opcode (m_checkKind selfAdd32) <> BranchAdd64)
    /\ (forall index,
          markedRecoverable first index = true
          <-> index = 1%nat
              /\ (opcode (m_checkKind selfAdd32) = BranchAdd32
                  \/ opcode (m_checkKind selfAdd32) = BranchAdd64)).
Proof.
  apply (forEachArg_marks_recoverable_iff_add probeTarget selfAdd32 addInst
           {| inst_kind := m_checkKind selfAdd32;
              origin := Some checkAddValue;
              args := [ResCond Overflow; Tmp 0%nat; Tmp 1%nat] |} 2).
  - reflexivity.
  - reflexivity.
  - cbn. lia.
  - repeat constructor.
Defined.

(** On the reporting target: a checked add hands index 1 over, a checked
    subtract hands none. *)
Example forEachArg_probe_add :
  forEachArg probeTarget selfAdd32 addInst
  = Some [mkArgCall 1 Use GP Width32; mkArgCall 2 Use GP Width32;
          mkArgCall 3 UseDef GP Width32; mkArgCall 1 Use GP Width64].
Proof. reflexivity. Qed.

Example forEachArg_probe_sub :
  forEachArg probeTarget (sampleSpecial BranchSub32 3) addInst
  = Some [mkArgCall 1 Use GP Width32; mkArgCall 2 Use GP Width32;
          mkArgCall 3 UseDef GP Width32].
Proof. reflexivity. Qed.

(** ** Evaluation order in [isValid] *)

(** X5. When the hidden branch is not a valid form, [isValid] answers false
    without looking further: it does not abort even if the origin is
    missing or is not a check, for which [numB3Args] would. *)
Theorem isValid_invalid_form
  (E : Collaborators) (this : CheckSpecial) (inst hidden : Inst) :
  hiddenBranch this inst = Some hidden ->
  isValidForm E hidden = false ->
  isValid E this inst = Some false.
Proof.
  intros Hhidden Hform. unfold isValid. rewrite Hhidden. cbn [bind].
  now rewrite Hform.
Qed.

Lemma isValid_invalid_form_witness :
  isValid sampleTarget (sampleSpecial Oops 0)
    {| inst_kind := {| opcode := Patch; effects := true |};
       origin := None;
       args := [Special] |}
  = Some false.
Proof.
  apply (isValid_invalid_form sampleTarget (sampleSpecial Oops 0)
           {| inst_kind := {| opcode := Patch; effects := true |};
              origin := None;
              args := [Special] |}
           {| inst_kind := {| opcode := Oops; effects := false |};
              origin := None;
              args := [] |}).
  - reflexivity.
  - reflexivity.
Defined.

(** X6. When the hidden branch is a valid form but the instruction's origin
    is not one of the four check kinds, [isValid] does not answer: the
    [RELEASE_ASSERT_NOT_REACHED] of [numB3Args] aborts. *)
Theorem isValid_aborts_on_other_origin
  (E : Collaborators) (this : CheckSpecial) (inst hidden : Inst) (value : Value) :
  hiddenBranch this inst = Some hidden ->
  isValidForm E hidden = true ->
  origin inst = Some value ->
  kind value <> CheckAdd -> kind value <> CheckSub ->
  kind value <> CheckMul -> kind value <> Check ->
  isValid E this inst = None.
Proof.
  intros Hhidden Hform Horigin Hadd Hsub Hmul Hcheck.
  unfold isValid. rewrite Hhidden. cbn [bind]. rewrite Hform.
  unfold numB3Args, numB3Args_Value. rewrite Horigin. cbn [bind].
  destruct (kind value); try contradiction; reflexivity.
Qed.

Lemma isValid_aborts_on_other_origin_witness :
  isValid sampleTarget selfAdd32
    {| inst_kind := {| opcode := Patch; effects := true |};
       origin := Some {| kind := Patchpoint; numChildren := 3; m_generator := 7 |};
       args := [Special; ResCond Overflow; Tmp 2%nat; Tmp 2%nat; Stack 16] |}
  = None.
Proof.
  apply (isValid_aborts_on_other_origin sampleTarget selfAdd32
           {| inst_kind := {| opcode := Patch; effects := true |};
              origin := Some {| kind := Patchpoint; numChildren := 3; m_generator := 7 |};
              args := [Special; ResCond Overflow; Tmp 2%nat; Tmp 2%nat; Stack 16] |}
           {| inst_kind := m_checkKind selfAdd32;
              origin := Some {| kind := Patchpoint; numChildren := 3; m_generator := 7 |};
              args := [ResCond Overflow; Tmp 2%nat; Tmp 2%nat] |}
           {| kind := Patchpoint; numChildren := 3; m_generator := 7 |}).
  - reflexivity.
  - reflexivity.
  - reflexivity.
  - discriminate.
  - discriminate.
  - discriminate.
  - discriminate.
Defined.

(** ** Where an operand may live *)

(** X7. For a check whose operand count plus one fits in [unsigned],
    [admitsExtendedOffsetAddr] never admits an operand of the hidden
    branch, and answers false there even for an instruction too short for
    its hidden branch, on which [admitsStack] aborts; wherever it admits,
    the slot is outside the hidden branch's range and [admitsStack] admits
    it too. *)
Theorem admitsExtendedOffsetAddr_outside_hidden_branch
  (E : Collaborators) (this : CheckSpecial) (inst : Inst) :
  Z.of_nat (m_numCheckArgs this) + 1 < 2 ^ 32 ->
  (forall argIndex,
      (1 <= argIndex < 1 + m_numCheckArgs this)%nat ->
      admitsExtendedOffsetAddr E this inst argIndex = Some false
      /\ (hiddenBranch this inst = None -> admitsStack E this inst argIndex = None))
  /\ (forall argIndex,
        admitsExtendedOffsetAddr E this inst argIndex = Some true ->
        (argIndex = 0%nat \/ (1 + m_numCheckArgs this <= argIndex)%nat)
        /\ admitsStack E this inst argIndex = Some true
        /\ exists nb,
             numB3Args inst = Some nb
             /\ admitsStackImpl E nb (m_numCheckArgs this + 1) inst argIndex = true).
Proof.
  intros Hbound.
  assert (Hsum1 : unsignedSum 1 (m_numCheckArgs this) = (1 + m_numCheckArgs this)%nat).
  { unfold unsignedSum. rewrite Z.mod_small by lia. lia. }
  assert (Hsum2 : unsignedSum (m_numCheckArgs this) 1 = (m_numCheckArgs this + 1)%nat).
  { unfold unsignedSum. rewrite Z.mod_small by lia. lia. }
  split.
  - intros argIndex [Hlo Hhi].
    assert (Hin : (1 <=? argIndex)%nat && (argIndex <? 1 + m_numCheckArgs this)%nat
                  = true).
    { apply andb_true_iff. split; [ now apply Nat.leb_le | now apply Nat.ltb_lt ]. }
    unfold admitsExtendedOffsetAddr, admitsStack. rewrite Hsum1, Hin.
    split; [ reflexivity | ]. now intros ->.
  - intros argIndex H. unfold admitsExtendedOffsetAddr in H. rewrite Hsum1 in H.
    destruct ((1 <=? argIndex)%nat && (argIndex <? 1 + m_numCheckArgs this)%nat)
      eqn:Hin; [ discriminate | ].
    split.
    + apply andb_false_iff in Hin. destruct Hin as [Hin | Hin].
      * apply Nat.leb_gt in Hin. left. lia.
      * apply Nat.ltb_ge in Hin. now right.
    + split; [ exact H | ].
      unfold admitsStack in H. rewrite Hsum1, Hsum2, Hin in H.
      destruct (numB3Args inst) as [nb | ]; cbn [bind] in H; [ | discriminate ].
      exists nb. split; [ reflexivity | ]. now inversion H.
Qed.

Lemma admitsExtendedOffsetAddr_outside_hidden_branch_witness :
  (forall argIndex,
      (1 <= argIndex < 1 + m_numCheckArgs selfAdd32)%nat ->
      admitsExtendedOffsetAddr sampleTarget selfAdd32 selfAddInst argIndex = Some false
      /\ (hiddenBranch selfAdd32 selfAddInst = None ->
          admitsStack sampleTarget selfAdd32 selfAddInst argIndex = None))
  /\ (forall argIndex,
        admitsExtendedOffsetAddr sampleTarget selfAdd32 selfAddInst argIndex = Some true ->
        (argIndex = 0%nat \/ (1 + m_numCheckArgs selfAdd32 <= argIndex)%nat)
        /\ admitsStack sampleTarget selfAdd32 selfAddInst argIndex = Some true
        /\ exists nb,
             numB3Args selfAddInst = Some nb
             /\ admitsStackImpl sampleTarget nb (m_numCheckArgs selfAdd32 + 1)
                  selfAddInst argIndex = true).
Proof.
  apply (admitsExtendedOffsetAddr_outside_hidden_branch sampleTarget selfAdd32
           selfAddInst).
  cbn. lia.
Defined.

(** On the sample instruction: slot 2, an operand of the hidden branch, is
    not admitted; slot 4, a stackmap operand, is. *)
Example admitsExtendedOffsetAddr_sample :
  admitsExtendedOffsetAddr sampleTarget selfAdd32 selfAddInst 2 = Some false
  /\ admitsExtendedOffsetAddr sampleTarget selfAdd32 selfAddInst 4 = Some true.
Proof. split; reflexivity. Qed.

(** ** Aliasing the defined operand *)

(** X8. A suggestion of [shouldTryAliasingDef] is the hidden branch's own
    suggestion moved one slot further, so it never names the special in
    slot 0. *)
Theorem shouldTryAliasingDef_offset
  (E : Collaborators) (this : CheckSpecial) (inst : Inst) (index : nat) :
  shouldTryAliasingDef E this inst = Some (Some index) ->
  (1 <= index)%nat
  /\ exists hidden,
       hiddenBranch this inst = Some hidden
       /\ Inst_shouldTryAliasingDef E hidden = Some (index - 1)%nat.
Proof.
  unfold shouldTryAliasingDef. intros H.
  destruct (hiddenBranch this inst) as [hidden | ]; cbn [bind] in H; [ | discriminate ].
  destruct (Inst_shouldTryAliasingDef E hidden) as [branchDef | ] eqn:Hdef;
    [ | discriminate ].
  inversion H. split; [ lia | ].
  exists hidden. split; [ reflexivity | ].
  rewrite Hdef. f_equal. lia.
Qed.

Lemma shouldTryAliasingDef_offset_witness :
  (1 <= 3)%nat
  /\ exists hidden,
       hiddenBranch selfAdd32 addInst = Some hidden
       /\ Inst_shouldTryAliasingDef aliasingTarget hidden = Some (3 - 1)%nat.
Proof.
  apply (shouldTryAliasingDef_offset aliasingTarget selfAdd32 addInst 3).
  reflexivity.
Defined.

(** ** More of the undo switch *)

(** X9. For a three-operand checked add whose source [args[1]] is not the
    destination register [args[2]], the late path emits one subtract of
    the source from the destination, and the add followed by this subtract
    leaves the destination's earlier value, whatever the two values were. *)
Theorem undo_checked_add_two_operands
  (E : Collaborators) (w : Width) (this : CheckSpecial) (o : option Value)
  (cond : ResultCondition) (src : Arg) (d : GPRReg) (m : Machine) (a b : Z) :
  opcode (m_checkKind this) = BranchAdd w ->
  m_numCheckArgs this = 3%nat ->
  is64Bit E = true ->
  src <> Tmp d ->
  0 <= a < modulus w ->
  regs m d = a ->
  readArg w m src = Some b ->
  undoOperation E this [ResCond cond; src; Tmp d]
    = Some [air (Inst_of (Sub w) [src; Tmp d])]
  /\ exists m1 m2,
       execAir (hiddenOf this o [ResCond cond; src; Tmp d]) m = Some m1
       /\ regs m1 d = wrap w (a + b)
       /\ run [air (Inst_of (Sub w) [src; Tmp d])] m1 = Some m2
       /\ regs m2 d = a.
Proof.
  intros Hop Hn H64 Hsrc Ha Hd Hb.
  assert (Hdst : readArg w m (Tmp d) = Some a) by now apply readArg_Tmp.
  split.
  - unfold undoOperation, allOperandsAliased. rewrite Hop, Hn.
    destruct w; cbn [BranchAdd Sub]; rewrite H64; cbn [Nat.eqb at_ nth_error bind];
      rewrite (Arg_eqb_neq _ _ Hsrc); reflexivity.
  - destruct (addFlags_dst w src (Tmp d) d m b a Hb Hdst)
      as (m1 & Hm1 & Hr1 & _ & _ & _ & Hframe).
    rewrite Z.add_comm in Hr1.
    destruct (subFlags_dst w src d m1 (wrap w (a + b)) b) as (m2 & Hm2 & Hr2 & _).
    { now apply readArg_Tmp_wrapped. }
    { now rewrite Hframe. }
    exists m1, m2. repeat split.
    + unfold execAir, hiddenOf. cbn [inst_kind args]. rewrite Hop.
      destruct w; exact Hm1.
    + exact Hr1.
    + cbn [run exec]. unfold execAir, Inst_of. cbn [inst_kind args opcode].
      destruct w; cbn [Sub]; rewrite Hm2; reflexivity.
    + rewrite Hr2. now apply wrap_add_sub.
Qed.

Lemma undo_checked_add_two_operands_witness :
  undoOperation sampleTarget (sampleSpecial BranchAdd64 3)
      [ResCond Overflow; Imm 5; Tmp 1%nat]
    = Some [air (Inst_of Sub64 [Imm 5; Tmp 1%nat])]
  /\ exists m1 m2,
       execAir (hiddenOf (sampleSpecial BranchAdd64 3) None
                  [ResCond Overflow; Imm 5; Tmp 1%nat])
               (sampleMachine 0 18446744073709551614 0) = Some m1
       /\ regs m1 1%nat = wrap Width64 (18446744073709551614 + 5)
       /\ run [air (Inst_of Sub64 [Imm 5; Tmp 1%nat])] m1 = Some m2
       /\ regs m2 1%nat = 18446744073709551614.
Proof.
  apply (undo_checked_add_two_operands sampleTarget Width64
           (sampleSpecial BranchAdd64 3) None Overflow (Imm 5) 1%nat
           (sampleMachine 0 18446744073709551614 0) 18446744073709551614 5).
  - reflexivity.
  - reflexivity.
  - reflexivity.
  - discriminate.
  - unfold modulus; cbn; lia.
  - reflexivity.
  - reflexivity.
Defined.

(** X10. For a hidden branch whose opcode the switch has no case for (a
    multiply, a test, any other), the late path undoes nothing, on every
    target and whatever the saved operands are: it links the failure edge
    and runs the recovery generator. *)
Theorem no_undo_outside_the_switch
  (E : Collaborators) (this : CheckSpecial) (operands : list Arg)
  (fail : Jump) (value : Value) (reps : list ValueRep) (jit : Jit) :
  hasUndoCase (opcode (m_checkKind this)) = false ->
  undoOperation E this operands = Some []
  /\ latePathFunction E
       {| lp_fail := fail; lp_this := this; lp_args := operands;
          lp_value := value; lp_reps := reps |} jit
     = Some (jit ++ [link fail; generator (m_generator value) value reps]).
Proof.
  intros Hcase.
  assert (Hundo : undoOperation E this operands = Some []).
  { unfold undoOperation.
    destruct (opcode (m_checkKind this)); try discriminate; reflexivity. }
  split; [ exact Hundo | ].
  unfold latePathFunction. cbn [lp_this lp_args lp_fail lp_value lp_reps].
  rewrite Hundo. cbn [bind map]. now rewrite app_nil_r, <- app_assoc.
Qed.

Lemma no_undo_outside_the_switch_witness :
  undoOperation sampleTarget32 (sampleSpecial BranchMul32 4) [] = Some []
  /\ latePathFunction sampleTarget32
       {| lp_fail := {| m_label := Some 3%nat |};
          lp_this := sampleSpecial BranchMul32 4;
          lp_args := [];
          lp_value := checkAddValue;
          lp_reps := [] |} []
     = Some ([] ++ [link {| m_label := Some 3%nat |};
                    generator (m_generator checkAddValue) checkAddValue []]).
Proof.
  apply (no_undo_outside_the_switch sampleTarget32 (sampleSpecial BranchMul32 4) []
           {| m_label := Some 3%nat |} checkAddValue [] []).
  reflexivity.
Defined.

(** X11. On a target that is not 64-bit, the late path of a checked add (of
    either width), of a 64-bit checked subtract and of a 64-bit checked
    negate emits nothing and aborts: these cases are
    [UNREACHABLE_FOR_PLATFORM]. *)
Theorem undo_unreachable_on_32_bit
  (E : Collaborators) (this : CheckSpecial) (operands : list Arg)
  (fail : Jump) (value : Value) (reps : list ValueRep) (jit : Jit) :
  is64Bit E = false ->
  undoNeeds64Bit (opcode (m_checkKind this)) = true ->
  undoOperation E this operands = None
  /\ latePathFunction E
       {| lp_fail := fail; lp_this := this; lp_args := operands;
          lp_value := value; lp_reps := reps |} jit
     = None.
Proof.
  intros H32 Hop.
  assert (Hundo : undoOperation E this operands = None).
  { unfold undoOperation.
    destruct (opcode (m_checkKind this)); try discriminate; now rewrite H32. }
  split; [ exact Hundo | ].
  unfold latePathFunction. cbn [lp_this lp_args]. now rewrite Hundo.
Qed.

Lemma undo_unreachable_on_32_bit_witness :
  undoOperation sampleTarget32 selfAdd32 [ResCond Overflow; Tmp 0%nat; Tmp 1%nat] = None
  /\ latePathFunction sampleTarget32
       {| lp_fail := {| m_label := Some 0%nat |};
          lp_this := selfAdd32;
          lp_args := [ResCond Overflow; Tmp 0%nat; Tmp 1%nat];
          lp_value := checkAddValue;
          lp_reps := [] |} []
     = None.
Proof.
  apply (undo_unreachable_on_32_bit sampleTarget32 selfAdd32
           [ResCond Overflow; Tmp 0%nat; Tmp 1%nat]
           {| m_label := Some 0%nat |} checkAddValue [] []).
  - reflexivity.
  - reflexivity.
Defined.

(** X12. Whatever the undo switch emits falls through to the recovery
    generator: at most six instructions, each an assembler call or a
    non-terminal Air instruction without origin, never a branch. *)
Theorem undo_is_straight_line
  (E : Collaborators) (this : CheckSpecial) (operands : list Arg) (undo : list MacroOp) :
  undoOperation E this operands = Some undo ->
  forallb fallsThrough undo = true /\ (length undo <= 6)%nat.
Proof.
  unfold undoOperation, allOperandsAliased. intros H.
  destruct (opcode (m_checkKind this));
    try (inversion H; split; [ reflexivity | cbn; lia ]);
    repeat match type of H with
      | context [if ?c then _ else _] => destruct c
      | context [bind ?c _] =>
          destruct c; cbn [bind] in H; [ | discriminate ]
      | None = Some _ => discriminate
      | Some _ = Some _ => inversion H; clear H; subst undo
      end;
    try discriminate;
    split; try reflexivity; cbn; lia.
Qed.

Lemma undo_is_straight_line_witness :
  forallb fallsThrough (carryUndo Width32 0%nat 2%nat) = true
  /\ (length (carryUndo Width32 0%nat 2%nat) <= 6)%nat.
Proof.
  apply (undo_is_straight_line sampleTarget selfAdd32
           [ResCond Overflow; Tmp 2%nat; Tmp 2%nat]).
  reflexivity.
Defined.

(** ** When [generate] goes through, and what its late path will emit *)

Lemma producesJump_isTerminal (op : Opcode) :
  producesJump op = true -> isTerminal op = true.
Proof. destruct op; cbn; intros H; first [ reflexivity | discriminate ]. Qed.

(** X14. [generate] goes through exactly when the hidden branch hands back a
    jump, the slots [inst.args[1 .. numCheckArgs]] exist, and the origin is
    one of the four check kinds; otherwise an assertion or an out-of-range
    access aborts it.  Neither the buffer nor the queue it is given
    matters. *)
Theorem generate_succeeds_iff
  (E : Collaborators) (this : CheckSpecial) (inst : Inst) (jit : Jit)
  (context : GenerationContext) :
  (exists r, generate E this inst jit context = Some r)
  <-> producesJump (opcode (m_checkKind this)) = true
      /\ (m_numCheckArgs this = 0%nat
          \/ (m_numCheckArgs this + 1 <= length (args inst))%nat)
      /\ exists value,
           origin inst = Some value
           /\ (kind value = CheckAdd \/ kind value = CheckSub
               \/ kind value = CheckMul \/ kind value = Check).
Proof.
  split.
  - intros [r H].
    destruct (generate_inv _ _ _ _ _ _ H)
      as (hidden & value & nb & Hhidden & Hjump & Horigin & Hnb & _).
    split; [ exact Hjump | ]. split.
    + destruct (hiddenBranch_inv _ _ _ Hhidden) as (_ & _ & Happ & _).
      exact (appendUsingFunctor_in_range _ _ _ Happ).
    + exists value. split; [ exact Horigin | ].
      destruct (numB3Args_Kind_values _ _ Hnb) as [[Hk _] | [Hk _]]; intuition.
  - intros (Hjump & Hrange & value & Horigin & Hkind).
    assert (Hhidden : hiddenBranch this inst
                      = Some {| inst_kind := m_checkKind this;
                                origin := origin inst;
                                args := firstn (m_numCheckArgs this)
                                          (skipn 1 (args inst)) |}).
    { rewrite hiddenBranch_spec, (producesJump_isTerminal _ Hjump). cbn [andb].
      destruct Hrange as [H0 | Hle].
      - now rewrite H0.
      - apply Nat.leb_le in Hle. now rewrite Hle, orb_true_r. }
    assert (Hnb : exists nb, numB3Args_Kind (kind value) = Some nb).
    { destruct Hkind as [-> | [-> | [-> | ->]]]; cbn; eauto. }
    destruct Hnb as [nb Hnb].
    eexists. exact (generate_total E this inst _ jit context value nb
                      Hhidden Hjump Horigin Hnb).
Qed.

(** X15. The recovery stub of an instruction, read off the instruction: when
    [generate] goes through, the late path it queued holds copies of the
    operands [inst.args[1 .. numCheckArgs]], and run at any later point of
    the buffer it emits the link of the failure edge to the hidden branch
    ([generate] put it at the end of the buffer it was given), the undo of
    those operands, and the origin's recovery generator with the
    representations computed when [generate] ran. *)
Theorem generate_late_path_code
  (E : Collaborators) (this : CheckSpecial) (inst : Inst) (jit : Jit)
  (context : GenerationContext) (r : Jump * Jit * GenerationContext)
  (undo : list MacroOp) :
  generate E this inst jit context = Some r ->
  undoOperation E this (firstn (m_numCheckArgs this) (skipn 1 (args inst))) = Some undo ->
  exists task value nb,
    latePaths (snd r) = latePaths context ++ [task]
    /\ origin inst = Some value
    /\ numB3Args inst = Some nb
    /\ lp_args task = firstn (m_numCheckArgs this) (skipn 1 (args inst))
    /\ length (lp_args task) = m_numCheckArgs this
    /\ nth_error (snd (fst r)) (length jit)
       = Some (code (air {| inst_kind := m_checkKind this;
                            origin := origin inst;
                            args := lp_args task |}))
    /\ forall later,
         latePathFunction E task later
         = Some (later
                 ++ link {| m_label := Some (length jit) |}
                    :: map code undo
                    ++ [generator (m_generator value) value
                          (repsImpl E context nb (m_numCheckArgs this + 1) inst)]).
Proof.
  intros H Hundo.
  destruct (generate_inv _ _ _ _ _ _ H)
    as (hidden & value & nb & Hhidden & Hjump & Horigin & Hnb & ->).
  destruct (hiddenBranch_inv _ _ _ Hhidden) as (Hkind & Horig & Happ & _).
  assert (Hargs : args hidden = firstn (m_numCheckArgs this) (skipn 1 (args inst))).
  { pose proof Hhidden as Hspec. rewrite hiddenBranch_spec in Hspec.
    destruct (isTerminal (opcode (m_checkKind this))
              && (Nat.eqb (m_numCheckArgs this) 0
                  || (m_numCheckArgs this + 1 <=? length (args inst))%nat));
      [ | discriminate ].
    injection Hspec as Hh. rewrite <- Hh. reflexivity. }
  exists (taskOf E this inst hidden {| m_label := Some (length jit) |} value context nb),
         value, nb.
  cbn [fst snd latePaths].
  split; [ reflexivity | ]. split; [ exact Horigin | ].
  split; [ unfold numB3Args, numB3Args_Value; now rewrite Horigin | ].
  unfold taskOf. cbn [lp_args lp_this lp_fail lp_value lp_reps].
  split; [ exact Hargs | ].
  split; [ exact (appendUsingFunctor_length _ _ _ Happ) | ].
  split.
  { rewrite nth_error_app2, Nat.sub_diag by lia. cbn [nth_error].
    do 3 f_equal. destruct hidden as [hk ho ha]. cbn in Hkind, Horig |- *.
    now subst. }
  intros later. unfold latePathFunction.
  cbn [lp_args lp_this lp_fail lp_value lp_reps]. rewrite Hargs, Hundo. cbn [bind].
  now rewrite <- !app_assoc.
Qed.

Lemma generate_late_path_code_witness :
  exists task value nb,
    latePaths (snd ({| m_label := None |},
                    [code (air (Inst_of Move [Tmp 1%nat; Tmp 2%nat]));
                     code (air {| inst_kind := m_checkKind selfAdd32;
                                  origin := Some checkAddValue;
                                  args := [ResCond Overflow; Tmp 2%nat; Tmp 2%nat] |})],
                    {| latePaths :=
                         [{| lp_fail := {| m_label := Some 1%nat |};
                             lp_this := selfAdd32;
                             lp_args := [ResCond Overflow; Tmp 2%nat; Tmp 2%nat];
                             lp_value := checkAddValue;
                             lp_reps := [RepStack 16] |}] |}))
    = latePaths {| latePaths := [] |} ++ [task]
    /\ origin selfAddInst = Some value
    /\ numB3Args selfAddInst = Some nb
    /\ lp_args task = firstn (m_numCheckArgs selfAdd32) (skipn 1 (args selfAddInst))
    /\ length (lp_args task) = m_numCheckArgs selfAdd32
    /\ nth_error
         (snd (fst ({| m_label := None |},
                    [code (air (Inst_of Move [Tmp 1%nat; Tmp 2%nat]));
                     code (air {| inst_kind := m_checkKind selfAdd32;
                                  origin := Some checkAddValue;
                                  args := [ResCond Overflow; Tmp 2%nat; Tmp 2%nat] |})],
                    {| latePaths :=
                         [{| lp_fail := {| m_label := Some 1%nat |};
                             lp_this := selfAdd32;
                             lp_args := [ResCond Overflow; Tmp 2%nat; Tmp 2%nat];
                             lp_value := checkAddValue;
                             lp_reps := [RepStack 16] |}] |})))
         (length [code (air (Inst_of Move [Tmp 1%nat; Tmp 2%nat]))])
       = Some (code (air {| inst_kind := m_checkKind selfAdd32;
                            origin := origin selfAddInst;
                            args := lp_args task |}))
    /\ forall later,
         latePathFunction sampleTarget task later
         = Some (later
                 ++ link {| m_label :=
                              Some (length [code (air (Inst_of Move [Tmp 1%nat; Tmp 2%nat]))]) |}
                    :: map code (carryUndo Width32 0%nat 2%nat)
                    ++ [generator (m_generator value) value
                          (repsImpl sampleTarget {| latePaths := [] |} nb
                             (m_numCheckArgs selfAdd32 + 1) selfAddInst)]).
Proof.
  apply (generate_late_path_code sampleTarget selfAdd32 selfAddInst
           [code (air (Inst_of Move [Tmp 1%nat; Tmp 2%nat]))]
           {| latePaths := [] |}).
  - reflexivity.
  - reflexivity.
Defined.

(** ** Dumps *)

(** X16. A special built from a key dumps as the key does: the same kind,
    operand count and role mode, in the same layout. *)
Theorem dump_of_special_is_dump_of_key
  (P : Dump.Printers) (key : Key) (this : CheckSpecial) (out : String.string) :
  CheckSpecial_of_Key key = Some this ->
  Dump.dumpImpl P this out = Dump.Key_dump P key out.
Proof.
  unfold CheckSpecial_of_Key, CheckSpecial_new. intros H.
  destruct (ASSERT (isDefinitelyTerminal (opcode (key_kind key)))); cbn [bind] in H;
    [ | discriminate ].
  inversion H. reflexivity.
Qed.

Lemma dump_of_special_is_dump_of_key_witness :
  Dump.dumpImpl DumpSample.printers selfAdd32 String.EmptyString
  = Dump.Key_dump DumpSample.printers
      (Key_of_Inst (Inst_of BranchAdd32 [ResCond Overflow; Tmp 2%nat; Tmp 2%nat]))
      String.EmptyString.
Proof.
  apply (dump_of_special_is_dump_of_key DumpSample.printers
           (Key_of_Inst (Inst_of BranchAdd32 [ResCond Overflow; Tmp 2%nat; Tmp 2%nat]))
           selfAdd32 String.EmptyString).
  reflexivity.
Defined.

(** ** Wasm compilation modes *)

(** X17. No compilation mode is both a BBQ and an OMG mode, and every
    OSR-entry mode is one or the other. *)
Theorem wasm_tiers_exclusive (m : Wasm.CompilationMode) :
  Wasm.isAnyBBQ m && Wasm.isAnyOMG m = false
  /\ (Wasm.isOSREntry m = true -> xorb (Wasm.isAnyBBQ m) (Wasm.isAnyOMG m) = true).
Proof.
  destruct m; cbn; split; intros; first [ reflexivity | discriminate ].
Qed.

(** X18. Among the BBQ and OMG modes, the three predicates tell the modes
    apart: two modes with the same answers to [isOSREntry], [isAnyBBQ] and
    [isAnyOMG], one of them a BBQ or OMG mode, are the same mode. *)
Theorem wasm_tier_modes_determined (m1 m2 : Wasm.CompilationMode) :
  Wasm.isAnyBBQ m1 || Wasm.isAnyOMG m1 = true ->
  Wasm.isOSREntry m1 = Wasm.isOSREntry m2 ->
  Wasm.isAnyBBQ m1 = Wasm.isAnyBBQ m2 ->
  Wasm.isAnyOMG m1 = Wasm.isAnyOMG m2 ->
  m1 = m2.
Proof.
  destruct m1, m2; cbn; intros; first [ reflexivity | discriminate ].
Qed.

Lemma wasm_tier_modes_determined_witness :
  Wasm.OMGForOSREntryMode = Wasm.OMGForOSREntryMode.
Proof.
  apply (wasm_tier_modes_determined Wasm.OMGForOSREntryMode Wasm.OMGForOSREntryMode);
    reflexivity.
Defined.

(** ** Cloning the recorder's context state *)

(** X19. [cloneForTransparencyLayer] clones the state, copies the
    transformation and the clip bounds, and never carries the last drawing
    state over: the clone has none, whatever the original held, so two
    context states that differ only there have the same clone. *)
Theorem cloneForTransparencyLayer_drops_lastDrawingState
  (GraphicsContextState AffineTransform FloatRect : Type)
  (clone : GraphicsContextState -> DisplayList.Purpose -> GraphicsContextState)
  (this : @DisplayList.ContextState GraphicsContextState AffineTransform FloatRect)
  (other : option GraphicsContextState) :
  DisplayList.lastDrawingState (DisplayList.cloneForTransparencyLayer clone this) = None
  /\ DisplayList.state (DisplayList.cloneForTransparencyLayer clone this)
     = clone (DisplayList.state this) DisplayList.TransparencyLayer
  /\ DisplayList.ctm (DisplayList.cloneForTransparencyLayer clone this)
     = DisplayList.ctm this
  /\ DisplayList.clipBounds (DisplayList.cloneForTransparencyLayer clone this)
     = DisplayList.clipBounds this
  /\ DisplayList.cloneForTransparencyLayer clone
       (DisplayList.mkContextState (DisplayList.state this) (DisplayList.ctm this)
          (DisplayList.clipBounds this) other)
     = DisplayList.cloneForTransparencyLayer clone this.
Proof.
  repeat split.
Qed.

(** ** The undo code leaves the other registers alone *)






Ltac undo_step H :=
  match type of H with
  | context [if ?c then _ else _] => destruct c eqn:?
  | context [bind ?c _] => destruct c eqn:?; cbn [bind] in H; [ | discriminate ]
  end.



(** ** Aliased operands *)

(** X20. The subtract that undoes a checked add never has the destination as
    its own source (which would zero it): when source and destination
    coincide, the switch takes the carry reconstruction instead. *)
Theorem undo_add_never_subtracts_from_itself
  (E : Collaborators) (w : Width) (this : CheckSpecial) (operands : list Arg)
  (undo : list MacroOp) (i : Inst) (src dst : Arg) :
  opcode (m_checkKind this) = BranchAdd w ->
  undoOperation E this operands = Some undo ->
  In (air i) undo ->
  args i = [src; dst] ->
  src <> dst /\ opcode (inst_kind i) = Sub w.
Proof.
  intros Hop H Hin Hargs. unfold undoOperation, allOperandsAliased in H.
  rewrite Hop in H.
  destruct w; cbn [BranchAdd Sub] in H |- *;
    repeat undo_step H; try discriminate;
    inversion H; subst undo; clear H;
    cbn in Hin;
    repeat (destruct Hin as [Hin | Hin]; try discriminate);
    try contradiction;
    inversion Hin; subst i; cbn in Hargs; inversion Hargs; subst;
    (split; [ | reflexivity ]);
    intros Heq; subst;
    repeat match goal with
      | Hx : Arg_eqb ?a ?a = false |- _ => rewrite Arg_eqb_refl in Hx; discriminate
      | Hx : Arg_eqb _ _ = true |- _ => apply Arg_eqb_eq in Hx; subst
      | Hx : at_ ?l ?k = Some ?a, Hy : at_ ?l ?k = Some ?b |- _ =>
          rewrite Hx in Hy; inversion Hy; subst; clear Hy
      end;
    repeat match goal with
      | Hx : _ = Some false |- _ =>
          progress (cbn [bind] in Hx; rewrite ?Arg_eqb_refl in Hx; cbn [bind] in Hx)
      end;
    discriminate.
Qed.

Lemma undo_add_never_subtracts_from_itself_witness :
  Tmp 0%nat <> Tmp 1%nat
  /\ opcode (inst_kind (Inst_of Sub32 [Tmp 0%nat; Tmp 1%nat])) = Sub Width32.
Proof.
  apply (undo_add_never_subtracts_from_itself sampleTarget Width32
           (sampleSpecial BranchAdd32 4)
           [ResCond Overflow; Tmp 0%nat; Tmp 1%nat; Tmp 1%nat]
           [air (Inst_of Sub32 [Tmp 0%nat; Tmp 1%nat])]
           (Inst_of Sub32 [Tmp 0%nat; Tmp 1%nat]) (Tmp 0%nat) (Tmp 1%nat)).
  - reflexivity.
  - reflexivity.
  - left. reflexivity.
  - reflexivity.
Defined.

(** X21. The checked subtract has no such case: when the subtrahend is the
    destination register itself, the subtract leaves zero and the add that
    undoes it adds zero to zero, so the register ends at zero whatever it
    held. *)
Theorem undo_checked_sub_aliased
  (E : Collaborators) (w : Width) (this : CheckSpecial) (o : option Value)
  (cond : ResultCondition) (d : GPRReg) (m : Machine) :
  opcode (m_checkKind this) = BranchSub w ->
  (w = Width64 -> is64Bit E = true) ->
  exists undo m1 m2,
    undoOperation E this [ResCond cond; Tmp d; Tmp d] = Some undo
    /\ execAir (hiddenOf this o [ResCond cond; Tmp d; Tmp d]) m = Some m1
    /\ regs m1 d = 0
    /\ run undo m1 = Some m2
    /\ regs m2 d = 0.
Proof.
  intros Hop H64.
  exists [air (Inst_of (Add w) [Tmp d; Tmp d])].
  destruct (subFlags_dst w (Tmp d) d m (wrap w (regs m d)) (wrap w (regs m d)))
    as (m1 & Hm1 & Hr1 & _); try reflexivity.
  rewrite Z.sub_diag in Hr1.
  assert (Hzero : wrap w 0 = 0) by (unfold wrap; apply Z.mod_0_l; pose proof (modulus_pos w); lia).
  rewrite Hzero in Hr1.
  destruct (addFlags_dst w (Tmp d) (Tmp d) d m1 0 0) as (m2 & Hm2 & Hr2 & _);
    try (cbn; now rewrite Hr1).
  exists m1, m2. repeat split.
  - unfold undoOperation. rewrite Hop.
    destruct w; cbn; [ reflexivity | ]. now rewrite H64.
  - unfold execAir, hiddenOf. cbn [inst_kind args]. rewrite Hop.
    destruct w; exact Hm1.
  - exact Hr1.
  - cbn [run exec]. unfold execAir, Inst_of. cbn [inst_kind args opcode].
    destruct w; cbn [Add]; rewrite Hm2; reflexivity.
  - now rewrite Hr2.
Qed.

Lemma undo_checked_sub_aliased_witness :
  exists undo m1 m2,
    undoOperation sampleTarget (sampleSpecial BranchSub32 3)
      [ResCond Overflow; Tmp 0%nat; Tmp 0%nat] = Some undo
    /\ execAir (hiddenOf (sampleSpecial BranchSub32 3) None
                  [ResCond Overflow; Tmp 0%nat; Tmp 0%nat]) (sampleMachine 5 7 0)
       = Some m1
    /\ regs m1 0%nat = 0
    /\ run undo m1 = Some m2
    /\ regs m2 0%nat = 0.
Proof.
  apply (undo_checked_sub_aliased sampleTarget Width32 (sampleSpecial BranchSub32 3)
           None Overflow 0%nat (sampleMachine 5 7 0)).
  - reflexivity.
  - discriminate.
Defined.
